(** * Wastemeter overlay: simulated behaviour stream and severity escalation

    A shallow embedding of [src/WastemeterDemo.jsx]: the pattern catalogue,
    the weighted pattern generator of [useSimulatedAIStream], the severity
    classifier [getSeverity], the feedback capabilities of [useFeedback], and
    the escalation and logging effects of [WastemeterOverlay].

    Numbers.  JavaScript numbers are IEEE doubles.  The counters, thresholds
    and dwell budgets of the component are integers far below 2^53, where
    double arithmetic is exact; they are integers ([Z]) here.  A value of
    [Math.random()] is a double and so a rational ([Q]); every product, sum
    and difference of the stream generator is rounded to the nearest double
    by [double], as JavaScript rounds it.

    Rendering.  The updater passed to [setState] runs once per timer tick and
    every tick is followed by one render whose effects run in declaration
    order, as in a production build of React. *)

From Stdlib Require Import ZArith QArith Qround Qpower Lqa Lia Bool String List.
Import ListNotations.

Local Open Scope string_scope.
Local Open Scope Z_scope.
Local Open Scope list_scope.

(** ** Configuration *)

Record BehaviorPattern := {
  key : string;
  label : string;
  waste : bool
}.

Module Thresholds.
Record t := mk { warn : Z; high : Z; critical : Z }.
End Thresholds.

Record Config := {
  tickMs : Z;
  thresholds : Thresholds.t;
  patterns : list BehaviorPattern;
  targetSessionSec : Z
}.

Definition DEFAULT_CONFIG : Config := {|
  tickMs := 1000;
  thresholds := Thresholds.mk 10 25 45;
  patterns :=
    [ {| key := "FOCUSED"; label := "Focused"; waste := false |};
      {| key := "SOCIALIZING"; label := "Socializing"; waste := true |};
      {| key := "IDLING"; label := "Idling"; waste := true |};
      {| key := "NON_LEARNING_CONTENT"; label := "Non-learning Content"; waste := true |};
      {| key := "AWAY_FROM_SEAT"; label := "Away from Seat"; waste := true |};
      {| key := "EATING"; label := "Eating"; waste := true |};
      {| key := "RUSHING"; label := "Rushing"; waste := false |};
      {| key := "SKIPPING_RECOMMENDED_LESSON"; label := "Skipping Lesson"; waste := false |};
      {| key := "CHEATING"; label := "Cheating"; waste := true |} ];
  targetSessionSec := 8 * 60
|}.

(** ** Severity classifier *)

(** The five strings [getSeverity] returns. *)
Inductive Severity := ok | mild | warn | high | critical.

Definition Severity_eqb (a b : Severity) : bool :=
  match a, b with
  | ok, ok | mild, mild | warn, warn | high, high | critical, critical => true
  | _, _ => false
  end.

Definition getSeverity (secondsInPattern : Z) (th : Thresholds.t) (isWaste : bool)
  : Severity :=
  if negb isWaste then ok
  else if secondsInPattern >=? Thresholds.critical th then critical
  else if secondsInPattern >=? Thresholds.high th then high
  else if secondsInPattern >=? Thresholds.warn th then warn
  else mild.

(** ** Feedback capabilities ([useFeedback]) *)

(** What reaches the device: a tone on the Web Audio API, a pulse on
    [navigator.vibrate]. *)
Inductive Output :=
| Tone (freq durMs : Z)
| Vibration (ms : Z).

(** What the browser offers: an [AudioContext] constructor and a
    [navigator.vibrate] function are both optional. *)
Record Device := {
  hasAudioContext : bool;
  hasVibrate : bool
}.

Definition ping (muted : bool) (dev : Device) (freq durMs : Z) : list Output :=
  if muted then []
  else if negb (hasAudioContext dev) then []
  else [Tone freq durMs].

Definition vibrate (reducedMotion : bool) (dev : Device) (ms : Z) : list Output :=
  if reducedMotion then []
  else if hasVibrate dev then [Vibration ms]
  else [].

(** The calls the overlay makes on the object returned by [useFeedback]. *)
Inductive FeedbackCall :=
| CallPing (freq durMs : Z)
| CallVibrate (ms : Z).

Definition perform (muted reducedMotion : bool) (dev : Device) (c : FeedbackCall)
  : list Output :=
  match c with
  | CallPing f d => ping muted dev f d
  | CallVibrate ms => vibrate reducedMotion dev ms
  end.

Definition perform_all (muted reducedMotion : bool) (dev : Device)
  (cs : list FeedbackCall) : list Output :=
  flat_map (perform muted reducedMotion dev) cs.

(** ** Escalation effect *)

(** [Array.prototype.indexOf]: the first position of [x], or -1. *)
Fixpoint indexOf_from (x : Severity) (l : list Severity) (i : Z) : Z :=
  match l with
  | [] => -1
  | y :: rest => if Severity_eqb y x then i else indexOf_from x rest (i + 1)
  end.

Definition indexOf (l : list Severity) (x : Severity) : Z := indexOf_from x l 0.

Definition order : list Severity := [mild; warn; high; critical].

(** The values the escalation effect reads on a render. *)
Record EffectInput := {
  in_sever : Severity;
  in_waste : bool;
  in_snoozed : bool;
  in_running : bool
}.

(** One run of the effect: the feedback calls it makes and the new content of
    [lastSever.current]. *)
Definition escalation_effect (i : EffectInput) (lastSever : Severity)
  : list FeedbackCall * Severity :=
  if in_snoozed i || negb (in_running i) then ([], lastSever)
  else
    let calls :=
      if in_waste i then
        let prevIdx := indexOf order lastSever in
        let idx := indexOf order (in_sever i) in
        if idx >? prevIdx
        then [CallPing (700 + idx * 100) 100; CallVibrate (25 + idx * 10)]
        else []
      else [] in
    (calls, in_sever i).

(** The effect over successive renders, from a given content of the ref: the
    calls of each render, and the final content of the ref. *)
Fixpoint escalation_run (lastSever : Severity) (rs : list EffectInput)
  : list (list FeedbackCall) * Severity :=
  match rs with
  | [] => ([], lastSever)
  | i :: rest =>
      let '(calls, last') := escalation_effect i lastSever in
      let '(more, final) := escalation_run last' rest in
      (calls :: more, final)
  end.

(** [useRef(sever)]: the ref starts at the severity of the first render. *)
Definition escalation_session (rs : list EffectInput)
  : list (list FeedbackCall) * Severity :=
  match rs with
  | [] => ([], ok)
  | i :: _ => escalation_run (in_sever i) rs
  end.

(** A feedback event is one run of the effect that made calls. *)
Definition fired (calls : list FeedbackCall) : bool :=
  match calls with [] => false | _ :: _ => true end.

Definition events (trace : list (list FeedbackCall)) : nat :=
  length (filter fired trace).

(** ** Doubles *)

(** The nearest integer, a tie going to the even one. *)
Definition round_half_even (x : Q) : Z :=
  let f := Qfloor x in
  match (x - inject_Z f ?= 1 # 2)%Q with
  | Lt => f
  | Gt => f + 1
  | Eq => if Z.even f then f else f + 1
  end.

(** For [x > 0], the [k] with 2^k <= x < 2^(k+1). *)
Definition ilog2 (x : Q) : Z :=
  let k := Z.log2 (Qnum x) - Z.log2 (Zpos (Qden x)) in
  if Qle_bool (2 ^ k) x then k else k - 1.

(** The exponent of the last binary place a double keeps of [x > 0]: 53
    significant bits, and no place below 2^-1074. *)
Definition last_place (x : Q) : Z := Z.max (-1074) (ilog2 x - 52).

Definition double_pos (x : Q) : Q :=
  (inject_Z (round_half_even (x / 2 ^ last_place x)) * 2 ^ last_place x)%Q.

(** The double nearest to [x], ties to even: what every arithmetic
    operation of JavaScript returns for the real result [x].  No result
    here comes near 2^1024, where a double overflows. *)
Definition double (x : Q) : Q :=
  match (x ?= 0)%Q with
  | Eq => 0%Q
  | Gt => double_pos x
  | Lt => (- double_pos (- x))%Q
  end.

(** The numbers a double can hold: [m * 2^e] with less than 2^53 in [m] and
    [e] no lower than -1074. *)
Definition is_double (x : Q) : Prop :=
  exists m e : Z, Z.abs m < 2 ^ 53 /\ -1074 <= e /\ (x == inject_Z m * 2 ^ e)%Q.

(** ** Simulated stream ([useSimulatedAIStream]) *)

Module Weighted.
Record t := mk { key : string; w : Q }.
End Weighted.

Definition weightedPool : list Weighted.t :=
  [ Weighted.mk "FOCUSED" 36;
    Weighted.mk "SOCIALIZING" 8;
    Weighted.mk "IDLING" 10;
    Weighted.mk "NON_LEARNING_CONTENT" 10;
    Weighted.mk "AWAY_FROM_SEAT" 4;
    Weighted.mk "EATING" 4;
    Weighted.mk "RUSHING" 6;
    Weighted.mk "SKIPPING_RECOMMENDED_LESSON" 4;
    Weighted.mk "CHEATING" 2 ].

(** [x < 0] on numbers. *)
Definition Qneg_bool (x : Q) : bool := negb (Qle_bool 0 x).

(** [pool.reduce((s, p) => s + p.w, 0)] *)
Definition total (pool : list Weighted.t) : Q :=
  fold_left (fun s p => double (s + Weighted.w p)) pool 0%Q.

(** [pool.find((p) => (r -= p.w) < 0)]: the running value [r] is decreased
    at every entry visited; [None] is [undefined]. *)
Fixpoint find_draw (pool : list Weighted.t) (r : Q) : option Weighted.t :=
  match pool with
  | [] => None
  | p :: rest =>
      let r' := double (r - Weighted.w p) in
      if Qneg_bool r' then Some p else find_draw rest r'
  end.

(** [found?.key || "FOCUSED"]: the empty string is falsy as well. *)
Definition chosenKey (pool : list Weighted.t) (u : Q) : string :=
  let r := double (u * total pool) in
  match find_draw pool r with
  | Some p => if String.eqb (Weighted.key p) "" then "FOCUSED" else Weighted.key p
  | None => "FOCUSED"
  end.

(** [catalog.find((p) => p.key === k) || catalog[0]]; [None] is [undefined]. *)
Definition lookup (catalog : list BehaviorPattern) (k : string)
  : option BehaviorPattern :=
  match find (fun p => String.eqb (key p) k) catalog with
  | Some p => Some p
  | None => nth_error catalog 0
  end.

(** [u] is the value returned by [Math.random()]. *)
Definition pickPattern (u : Q) : option BehaviorPattern :=
  lookup (patterns DEFAULT_CONFIG) (chosenKey weightedPool u).

(** [Math.round]: to the nearest integer, halves upwards. *)
Definition Math_round (x : Q) : Z := Qfloor (x + (1 # 2)).

(** The dwell time drawn for a freshly picked pattern. *)
Definition newDwell (pattern : BehaviorPattern) (u : Q) : Z :=
  let base := if String.eqb (key pattern) "FOCUSED" then 6 else 10 in
  Z.max 2 (Math_round (double (inject_Z base + double (u * inject_Z base)))).

Record StreamState := {
  pattern : BehaviorPattern;
  secondsInPattern : Z;
  sessionSec : Z;
  wastedSec : Z
}.

(** The hook: its state, [dwellLeftRef.current], and how many values
    [Math.random()] has handed out so far. *)
Record Gen := {
  state : StreamState;
  dwellLeft : Z;
  draws : nat
}.

(** The hook at mount; [None] when [config.patterns] is empty, where the
    first render fails on [ai.pattern.waste]. *)
Definition useSimulatedAIStream (config : Config) : option Gen :=
  match nth_error (patterns config) 0 with
  | Some p =>
      Some {| state := {| pattern := p; secondsInPattern := 0;
                          sessionSec := 0; wastedSec := 0 |};
              dwellLeft := 0;
              draws := 0 |}
  | None => None
  end.

Section Stream.

(** [random k] is the value of the [k]-th call of [Math.random()]. *)
Variable random : nat -> Q.

(** The updater run by the interval timer; [None] when it throws (reading
    [pattern.key] of [undefined]). *)
Definition tick (g : Gen) : option Gen :=
  let prev := state g in
  let selected :=
    if dwellLeft g <=? 0 then
      match pickPattern (random (draws g)) with
      | Some p =>
          Some (p, 0, newDwell p (random (S (draws g))), S (S (draws g)))
      | None => None
      end
    else Some (pattern prev, secondsInPattern prev, dwellLeft g, draws g) in
  match selected with
  | None => None
  | Some (pat, secs, dwell, n) =>
      Some {| state := {| pattern := pat;
                          secondsInPattern := secs + 1;
                          sessionSec := sessionSec prev + 1;
                          wastedSec := if waste pat then wastedSec prev + 1
                                       else wastedSec prev |};
              dwellLeft := Z.max 0 (dwell - 1);
              draws := n |}
  end.

(** [n] ticks in a row. *)
Fixpoint ticks (n : nat) (g : Gen) : option Gen :=
  match n with
  | O => Some g
  | S n' => match tick g with
            | Some g' => ticks n' g'
            | None => None
            end
  end.

End Stream.

(** ** Session log *)

Module LogEntry.
Record row := mk {
  t : string;           (* [new Date().toLocaleTimeString()] *)
  pattern : string;
  secs : Z;
  wasted : bool;
  totalWaste : Z
}.
End LogEntry.

(** The dependency array of the logging effect:
    [[ai.pattern.key, ai.secondsInPattern, ai.wastedSec]]. *)
Definition LogDeps : Type := string * Z * Z.

Definition logDeps (ai : StreamState) : LogDeps :=
  (key (pattern ai), secondsInPattern ai, wastedSec ai).

Definition LogDeps_eqb (a b : LogDeps) : bool :=
  let '(k1, s1, w1) := a in
  let '(k2, s2, w2) := b in
  String.eqb k1 k2 && (s1 =? s2) && (w1 =? w2).

Definition entry (timeString : string) (ai : StreamState) : LogEntry.row :=
  LogEntry.mk timeString (key (pattern ai)) (secondsInPattern ai)
              (waste (pattern ai)) (wastedSec ai).

(** [[entry, ...L].slice(0, 40)] *)
Definition push (e : LogEntry.row) (L : list LogEntry.row) : list LogEntry.row :=
  firstn 40 (e :: L).

(** One render: the effect runs at mount ([prev = None]) and whenever a
    dependency differs from the previous render's. *)
Definition log_effect (prev : option LogDeps) (timeString : string)
  (ai : StreamState) (L : list LogEntry.row) : list LogEntry.row :=
  let changed :=
    match prev with
    | None => true
    | Some d => negb (LogDeps_eqb d (logDeps ai))
    end in
  if changed then push (entry timeString ai) L else L.

(** The log over successive renders, each with the time string the clock
    shows then. *)
Fixpoint log_run (prev : option LogDeps) (rs : list (string * StreamState))
  (L : list LogEntry.row) : list LogEntry.row :=
  match rs with
  | [] => L
  | (ts, ai) :: rest => log_run (Some (logDeps ai)) rest (log_effect prev ts ai L)
  end.

Section SessionLog.

Variable random : nat -> Q.

(** [clock k] is the time string the clock shows on render [k]. *)
Variable clock : nat -> string.

(** The renders that follow the ticks: render [k] shows the state after
    one more tick; the list stops where a tick throws. *)
Fixpoint renders_from (k n : nat) (g : Gen) : list (string * StreamState) :=
  match n with
  | O => []
  | S n' => match tick random g with
            | Some g' => (clock k, state g') :: renders_from (S k) n' g'
            | None => []
            end
  end.

(** The renders of a session with [n] ticks: the mount render, then one
    per tick. *)
Definition session_renders (n : nat) (g : Gen) : list (string * StreamState) :=
  (clock 0, state g) :: renders_from 1 n g.

Definition session_log (n : nat) (g : Gen) : list LogEntry.row :=
  log_run None (session_renders n g) [].

End SessionLog.

(** ** The overlay ([WastemeterOverlay]) *)

Record Overlay := {
  stream : Gen;
  dragEnabled : bool;
  snoozedUntil : Z;
  muted : bool;
  running : bool;
  log : list LogEntry.row;
  lastSever : Severity;
  lastLogDeps : option LogDeps
}.

(** What a render reads from its surroundings. *)
Record Ambient := {
  now : Z;                 (* [Date.now()] *)
  timeString : string;     (* [new Date().toLocaleTimeString()] *)
  reducedMotion : bool;    (* [usePrefersReducedMotion()] *)
  device : Device
}.

Definition sever (config : Config) (o : Overlay) : Severity :=
  let ai := state (stream o) in
  getSeverity (secondsInPattern ai) (thresholds config) (waste (pattern ai)).

Definition effect_input (config : Config) (env : Ambient) (o : Overlay)
  : EffectInput :=
  {| in_sever := sever config o;
     in_waste := waste (pattern (state (stream o)));
     in_snoozed := now env <? snoozedUntil o;
     in_running := running o |}.

(** The effects of one render, in declaration order: escalation, then log.
    The object returned by [useFeedback] is new on every render, so the
    escalation effect runs on every render. *)
Definition commit (config : Config) (env : Ambient) (o : Overlay)
  : Overlay * list Output :=
  let ai := state (stream o) in
  let '(calls, last') := escalation_effect (effect_input config env o) (lastSever o) in
  ({| stream := stream o;
      dragEnabled := dragEnabled o;
      snoozedUntil := snoozedUntil o;
      muted := muted o;
      running := running o;
      log := log_effect (lastLogDeps o) (timeString env) ai (log o);
      lastSever := last';
      lastLogDeps := Some (logDeps ai) |},
   perform_all (muted o) (reducedMotion env) (device env) calls).

(** The hooks' initial values, before the first effects. *)
Definition WastemeterOverlay (config : Config) : option Overlay :=
  match useSimulatedAIStream config with
  | Some g =>
      Some {| stream := g;
              dragEnabled := true;
              snoozedUntil := 0;
              muted := false;
              running := true;
              log := [];
              lastSever := getSeverity (secondsInPattern (state g)) (thresholds config)
                                       (waste (pattern (state g)));
              lastLogDeps := None |}
  | None => None
  end.

(** Everything that changes the overlay: the interval timer and the four
    buttons. *)
Inductive Event :=
| TimerTick
| ClickMute
| ClickDrag
| ClickSnooze
| ClickPause.

Section Events.

Variable random : nat -> Q.
Variable config : Config.

Definition with_stream (o : Overlay) (g : Gen) : Overlay :=
  {| stream := g; dragEnabled := dragEnabled o; snoozedUntil := snoozedUntil o;
     muted := muted o; running := running o; log := log o;
     lastSever := lastSever o; lastLogDeps := lastLogDeps o |}.

(** The state change of an event; [onSnooze(1)] reads the clock. *)
Definition handle (ev : Event) (env : Ambient) (o : Overlay) : option Overlay :=
  match ev with
  | TimerTick =>
      match tick random (stream o) with
      | Some g => Some (with_stream o g)
      | None => None
      end
  | ClickMute =>
      Some {| stream := stream o; dragEnabled := dragEnabled o;
              snoozedUntil := snoozedUntil o; muted := negb (muted o);
              running := running o; log := log o;
              lastSever := lastSever o; lastLogDeps := lastLogDeps o |}
  | ClickDrag =>
      Some {| stream := stream o; dragEnabled := negb (dragEnabled o);
              snoozedUntil := snoozedUntil o; muted := muted o;
              running := running o; log := log o;
              lastSever := lastSever o; lastLogDeps := lastLogDeps o |}
  | ClickSnooze =>
      Some {| stream := stream o; dragEnabled := dragEnabled o;
              snoozedUntil := now env + 1 * 60 * 1000; muted := muted o;
              running := running o; log := log o;
              lastSever := lastSever o; lastLogDeps := lastLogDeps o |}
  | ClickPause =>
      Some {| stream := stream o; dragEnabled := dragEnabled o;
              snoozedUntil := snoozedUntil o; muted := muted o;
              running := negb (running o); log := log o;
              lastSever := lastSever o; lastLogDeps := lastLogDeps o |}
  end.

(** An event, then the render it causes and that render's effects. *)
Definition step (ev : Event) (env : Ambient) (o : Overlay)
  : option (Overlay * list Output) :=
  match handle ev env o with
  | Some o' => Some (commit config env o')
  | None => None
  end.

Definition mount (env : Ambient) : option (Overlay * list Output) :=
  match WastemeterOverlay config with
  | Some o => Some (commit config env o)
  | None => None
  end.

End Events.

(** ** A session of ticks *)

Section Session.

Variable random : nat -> Q.
Variable config : Config.

(** [envs k] is what render [k] reads from its surroundings. *)
Variable envs : nat -> Ambient.

(** [n] timer ticks, the first of them followed by render [k]. *)
Fixpoint run_ticks (k n : nat) (o : Overlay) : option Overlay :=
  match n with
  | O => Some o
  | S n' =>
      match step random config TimerTick (envs k) o with
      | Some (o', _) => run_ticks (S k) n' o'
      | None => None
      end
  end.

(** Mount, then [n] timer ticks. *)
Definition session (n : nat) : option Overlay :=
  match mount config (envs 0) with
  | Some (o, _) => run_ticks 1 n o
  | None => None
  end.

End Session.

(** ** Vocabulary of the properties *)

(** The ladder of the specification: mild 0, warn 1, high 2, critical 3, and
    [ok] below mild. *)
Definition ladder_rank (s : Severity) : Z :=
  match s with
  | ok => -1
  | mild => 0
  | warn => 1
  | high => 2
  | critical => 3
  end.

(** A render of a waste pattern, neither snoozed nor paused. *)
Definition active_waste (s : Severity) : EffectInput :=
  {| in_sever := s; in_waste := true; in_snoozed := false; in_running := true |}.

(** The ticks the specification expects to fire: those whose rank is above
    the rank recorded at the tick before. *)
Fixpoint upward_edges (last : Severity) (sevs : list Severity) : list bool :=
  match sevs with
  | [] => []
  | s :: rest => (ladder_rank last <? ladder_rank s) :: upward_edges s rest
  end.

(** A render on which the effect returns at once. *)
Definition suppressed (i : EffectInput) : Prop :=
  in_snoozed i = true \/ in_running i = false.

(** A muted overlay ten seconds into idling, whose recorded severity is
    still mild. *)
Definition muted_idling : Overlay :=
  {| stream := {| state := {| pattern := {| key := "IDLING"; label := "Idling";
                                            waste := true |};
                              secondsInPattern := 10;
                              sessionSec := 30;
                              wastedSec := 10 |};
                  dwellLeft := 4;
                  draws := 6 |};
     dragEnabled := true;
     snoozedUntil := 0;
     muted := true;
     running := true;
     log := [];
     lastSever := mild;
     lastLogDeps := None |}.

Definition phone : Ambient :=
  {| now := 1000; timeString := "12:00:00"; reducedMotion := false;
     device := {| hasAudioContext := true; hasVibrate := true |} |}.

(** A pool all of whose weights are strictly positive. *)
Definition positive_pool (pool : list Weighted.t) : Prop :=
  Forall (fun p => (0 < Weighted.w p)%Q) pool.

(** The running value of [r] once the first [n] weights are subtracted, as
    [find] computes it. *)
Fixpoint running_value (pool : list Weighted.t) (r : Q) (n : nat) {struct n} : Q :=
  match n with
  | O => r
  | S n' =>
      match pool with
      | p :: rest => running_value rest (double (r - Weighted.w p)) n'
      | [] => r
      end
  end.

(** A pool of the positive weights 0.1, 0.2 and 0.3. *)
Definition tenths : list Weighted.t :=
  [ Weighted.mk "A" (double (1 # 10));
    Weighted.mk "B" (double (2 # 10));
    Weighted.mk "C" (double (3 # 10)) ].

(** The double just below 1, which JavaScript prints as
    0.9999999999999999. *)
Definition below_one : Q := 1 - 2 ^ (-53).

(** A key no entry of the catalogue carries. *)
Definition absent (catalog : list BehaviorPattern) (k : string) : Prop :=
  forall p, In p catalog -> key p <> k.

(** The counters of a state lie in order: 0 <= wasted <= session. *)
Definition counters_ok (s : StreamState) : Prop :=
  0 <= wastedSec s /\ wastedSec s <= sessionSec s.

(** A stream whose random source always returns one half. *)
Definition halves : nat -> Q := fun _ => 1 # 2.

(** The records of a list of renders, oldest first. *)
Definition records (rs : list (string * StreamState)) : list LogEntry.row :=
  map (fun r => entry (fst r) (snd r)) rs.

(** Every render of the list differs from the one before it in a dependency
    of the logging effect. *)
Fixpoint deps_change (prev : option LogDeps) (rs : list (string * StreamState))
  : Prop :=
  match rs with
  | [] => True
  | (ts, ai) :: rest =>
      match prev with
      | None => True
      | Some d => LogDeps_eqb d (logDeps ai) = false
      end /\ deps_change (Some (logDeps ai)) rest
  end.

(** What holds of the hook between ticks: with dwell left the pattern has
    run for a second at least, and with none left it has not run for
    exactly one second. *)
Definition between_ticks (g : Gen) : Prop :=
  (0 < dwellLeft g -> 1 <= secondsInPattern (state g)) /\
  (dwellLeft g <= 0 -> secondsInPattern (state g) <> 1).

(** A clock that always shows noon. *)
Definition noon : nat -> string := fun _ => "12:00:00".

(** The state the specification asks for right after [reset()]: both
    counters at zero, an empty log, no dwell left. *)
Definition fresh (o : Overlay) : Prop :=
  sessionSec (state (stream o)) = 0 /\
  wastedSec (state (stream o)) = 0 /\
  log o = [] /\
  dwellLeft (stream o) <= 0.

(** An event that would serve as [reset()]: handled in any state, it leaves
    a fresh one. *)
Definition resets (random : nat -> Q) (ev : Event) : Prop :=
  forall env o, exists o', handle random ev env o = Some o' /\ fresh o'.

(** The default overlay one second into its session. *)
Definition one_second_in : Overlay :=
  {| stream := {| state := {| pattern := {| key := "SOCIALIZING"; label := "Socializing";
                                            waste := true |};
                              secondsInPattern := 1;
                              sessionSec := 1;
                              wastedSec := 1 |};
                  dwellLeft := 14;
                  draws := 2 |};
     dragEnabled := true;
     snoozedUntil := 0;
     muted := false;
     running := true;
     log := [ LogEntry.mk "12:00:00" "SOCIALIZING" 1 true 1;
              LogEntry.mk "12:00:00" "FOCUSED" 0 false 0 ];
     lastSever := mild;
     lastLogDeps := Some ("SOCIALIZING", 1, 1) |}.

(** * The rest of the component *)

From Stdlib Require Import Qminmax.

(** ** Display arithmetic *)

(** [clamp]: [Math.max(min, Math.min(max, v))]; both are exact on
    numbers. *)
Definition clamp (v min max : Q) : Q := Qmax min (Qmin max v).

(** [Math.PI], the double 884279719003555 / 2^48. *)
Definition Math_PI : Q := 884279719003555 # 281474976710656.

Section Display.

(** [fl] rounds a real result to the double JavaScript keeps: every
    division, product, sum and difference below goes through it. *)
Variable fl : Q -> Q.

(** [Math.round((ai.wastedSec / Math.max(1, ai.sessionSec)) * 100)] *)
Definition wastedPct (ai : StreamState) : Z :=
  Math_round
    (fl (fl (inject_Z (wastedSec ai) / inject_Z (Z.max 1 (sessionSec ai))) * 100)).

(** [clamp(wastedPct, 0, 100)] *)
Definition progressForRing (ai : StreamState) : Q :=
  clamp (inject_Z (wastedPct ai)) 0 100.

(** [ProgressRing]: the radius, the circumference, and the two lengths of
    [strokeDasharray], the arc drawn and the gap after it. *)
Definition ring_r (size stroke : Q) : Q := fl (fl (size - stroke) / 2).

Definition ring_c (size stroke : Q) : Q :=
  fl (fl (2 * Math_PI) * ring_r size stroke).

Definition ring_dash (size stroke progress : Q) : Q :=
  fl (fl (clamp progress 0 100 / 100) * ring_c size stroke).

Definition ring_gap (size stroke progress : Q) : Q :=
  fl (ring_c size stroke - ring_dash size stroke progress).

End Display.

(** What the proofs need of rounding to the nearest double: it keeps the
    order, leaves a double alone, and 0, 1 and 100 are doubles. *)
Record rounding (fl : Q -> Q) : Prop := {
  fl_mono : forall x y, (x <= y)%Q -> (fl x <= fl y)%Q;
  fl_idem : forall x, (fl (fl x) == fl x)%Q;
  fl_0 : (fl 0 == 0)%Q;
  fl_1 : (fl 1 == 1)%Q;
  fl_100 : (fl 100 == 100)%Q
}.

(** Arithmetic without rounding. *)
Definition exact : Q -> Q := fun x => x.

(** [shake]: whether the overlay shakes on this render. *)
Definition shake (config : Config) (env : Ambient) (o : Overlay) : bool :=
  negb (reducedMotion env)
  && waste (pattern (state (stream o)))
  && (Severity_eqb (sever config o) high || Severity_eqb (sever config o) critical).

(** ** Self-tests ([runSelfTests]) *)

(** [console.assert(cond, message)] prints the message when the condition
    is false. *)
Definition console_assert (cond : bool) (message : string) : list string :=
  if cond then [] else [message].

(** The messages the self-tests print. *)
Definition runSelfTests : list string :=
  let th := thresholds DEFAULT_CONFIG in
  console_assert (Qeq_bool (clamp 120 0 100) 100) "clamp upper bound failed"
  ++ console_assert (Qeq_bool (clamp (-5) 0 100) 0) "clamp lower bound failed"
  ++ console_assert (Severity_eqb (getSeverity 0 th false) ok) "severity ok failed"
  ++ console_assert (Severity_eqb (getSeverity 5 th true) mild) "severity mild failed"
  ++ console_assert (Severity_eqb (getSeverity 12 th true) warn) "severity warn failed"
  ++ console_assert (Severity_eqb (getSeverity 30 th true) high) "severity high failed"
  ++ console_assert (Severity_eqb (getSeverity 50 th true) critical)
       "severity critical failed".

(** ** Vocabulary of the further properties *)

(** Every value of [Math.random()] lies in [0, 1). *)
Definition unit_draws (random : nat -> Q) : Prop :=
  forall k, (0 <= random k)%Q /\ (random k < 1)%Q.

(** The effects of the last render have run: the logging effect remembers
    the state shown. *)
Definition rendered (o : Overlay) : Prop :=
  lastLogDeps o = Some (logDeps (state (stream o))).

(** The hook is within a dwell of at most twenty ticks. *)
Definition within_dwell (g : Gen) : Prop :=
  0 <= secondsInPattern (state g) /\
  0 <= dwellLeft g /\
  secondsInPattern (state g) + dwellLeft g <= 20.

(** An output the feedback can produce: a tone of 100 ms at 700, 800, 900
    or 1000 Hz, or a pulse of 25, 35, 45 or 55 ms. *)
Definition feedback_output (out : Output) : Prop :=
  match out with
  | Tone f d => d = 100 /\ (f = 700 \/ f = 800 \/ f = 900 \/ f = 1000)
  | Vibration ms => ms = 25 \/ ms = 35 \/ ms = 45 \/ ms = 55
  end.

(** A paused overlay one second into its session. *)
Definition paused_one_second_in : Overlay :=
  {| stream := stream one_second_in;
     dragEnabled := true;
     snoozedUntil := 0;
     muted := false;
     running := false;
     log := log one_second_in;
     lastSever := mild;
     lastLogDeps := Some ("SOCIALIZING", 1, 1) |}.

(** The hook of the default configuration at mount. *)
Definition default_mount : Gen :=
  {| state := {| pattern := {| key := "FOCUSED"; label := "Focused"; waste := false |};
                 secondsInPattern := 0; sessionSec := 0; wastedSec := 0 |};
     dwellLeft := 0;
     draws := 0 |}.

(** The severities never step down, from the recorded one on. *)
Fixpoint rising (last : Severity) (sevs : list Severity) : Prop :=
  match sevs with
  | [] => True
  | s :: rest => ladder_rank last <= ladder_rank s /\ rising s rest
  end.

(** An overlay ten seconds into idling whose recorded severity is still
    mild, snoozed until 61 s on the clock; the render of its next tick;
    and the surroundings half a minute and a full minute after the click. *)
Definition snoozed_idling : Overlay :=
  {| stream := stream muted_idling;
     dragEnabled := true;
     snoozedUntil := 61000;
     muted := false;
     running := true;
     log := [];
     lastSever := mild;
     lastLogDeps := None |}.

Definition snoozed_idling_next : Overlay :=
  {| stream := {| state := {| pattern := {| key := "IDLING"; label := "Idling";
                                            waste := true |};
                              secondsInPattern := 11;
                              sessionSec := 31;
                              wastedSec := 11 |};
                  dwellLeft := 3;
                  draws := 6 |};
     dragEnabled := true;
     snoozedUntil := 61000;
     muted := false;
     running := true;
     log := [ LogEntry.mk "12:00:30" "IDLING" 11 true 11 ];
     lastSever := mild;
     lastLogDeps := Some ("IDLING", 11, 11) |}.

Definition half_a_minute_on : Ambient :=
  {| now := 31000; timeString := "12:00:30"; reducedMotion := false;
     device := device phone |}.

Definition a_minute_on : Ambient :=
  {| now := 61000; timeString := "12:01:00"; reducedMotion := false;
     device := device phone |}.

(** * Properties *)

(** ** Rounding to doubles *)

Lemma Qfloor_bounds (x : Q) :
  (inject_Z (Qfloor x) <= x)%Q /\ (x < inject_Z (Qfloor x) + 1)%Q.
Proof.
  split; [apply Qfloor_le|].
  pose proof (Qlt_floor x) as H. rewrite inject_Z_plus in H. exact H.
Qed.

Lemma round_half_even_cases (x : Q) :
  round_half_even x = Qfloor x \/ round_half_even x = Qfloor x + 1.
Proof.
  unfold round_half_even.
  destruct (x - inject_Z (Qfloor x) ?= 1 # 2)%Q; [|left|right]; try reflexivity.
  destruct (Z.even (Qfloor x)); [left|right]; reflexivity.
Qed.

Lemma round_half_even_mono (x y : Q) :
  (x <= y)%Q -> round_half_even x <= round_half_even y.
Proof.
  intro Hxy. pose proof (Qfloor_resp_le x y Hxy) as Hf.
  destruct (Z.eq_dec (Qfloor x) (Qfloor y)) as [E|N].
  - unfold round_half_even. rewrite E.
    destruct (Qcompare_spec (x - inject_Z (Qfloor y)) (1 # 2)) as [Hx|Hx|Hx];
      destruct (Qcompare_spec (y - inject_Z (Qfloor y)) (1 # 2)) as [Hy|Hy|Hy];
      try destruct (Z.even (Qfloor y)); try lia; lra.
  - destruct (round_half_even_cases x) as [-> | ->];
      destruct (round_half_even_cases y) as [-> | ->]; lia.
Qed.

Lemma round_half_even_int (n : Z) : round_half_even (inject_Z n) = n.
Proof.
  unfold round_half_even. rewrite Qfloor_Z.
  destruct (Qcompare_spec (inject_Z n - inject_Z n) (1 # 2)) as [H|H|H];
    [lra|reflexivity|lra].
Qed.

Lemma pow2_pos (e : Z) : (0 < 2 ^ e)%Q.
Proof. apply Qpower_0_lt. reflexivity. Qed.

Lemma pow2_plus (a b : Z) : (2 ^ (a + b) == 2 ^ a * 2 ^ b)%Q.
Proof. apply Qpower_plus. discriminate. Qed.

Lemma pow2_le (a b : Z) : a <= b -> (2 ^ a <= 2 ^ b)%Q.
Proof. intro H. apply Qpower_le_compat_l; [exact H|discriminate]. Qed.

Lemma pow2_Z (n : Z) : 0 <= n -> (inject_Z (2 ^ n) == 2 ^ n)%Q.
Proof. intro H. apply (Zpower_Qpower 2 n H). Qed.

(** Rounding a quotient by a power of two, against an integer. *)
Lemma scaled_round_le (x : Q) (e N : Z) :
  (x <= inject_Z N * 2 ^ e)%Q ->
  (inject_Z (round_half_even (x / 2 ^ e)) * 2 ^ e <= inject_Z N * 2 ^ e)%Q.
Proof.
  intro H. pose proof (pow2_pos e) as Hp.
  apply Qmult_le_compat_r; [|lra].
  assert (Hd : (x / 2 ^ e <= inject_Z N)%Q) by (apply Qle_shift_div_r; assumption).
  pose proof (round_half_even_mono _ _ Hd) as Hm.
  rewrite round_half_even_int in Hm. rewrite <- Zle_Qle. exact Hm.
Qed.

Lemma scaled_round_ge (x : Q) (e N : Z) :
  (inject_Z N * 2 ^ e <= x)%Q ->
  (inject_Z N * 2 ^ e <= inject_Z (round_half_even (x / 2 ^ e)) * 2 ^ e)%Q.
Proof.
  intro H. pose proof (pow2_pos e) as Hp.
  apply Qmult_le_compat_r; [|lra].
  assert (Hd : (inject_Z N <= x / 2 ^ e)%Q) by (apply Qle_shift_div_l; assumption).
  pose proof (round_half_even_mono _ _ Hd) as Hm.
  rewrite round_half_even_int in Hm. rewrite <- Zle_Qle. exact Hm.
Qed.

Lemma ilog2_spec (x : Q) :
  (0 < x)%Q -> (2 ^ ilog2 x <= x)%Q /\ (x < 2 ^ (ilog2 x + 1))%Q.
Proof.
  intro Hx. destruct x as [n d].
  assert (Hn : 0 < n) by (unfold Qlt in Hx; cbn in Hx; lia).
  unfold ilog2. cbn [Qnum Qden].
  set (a := Z.log2 n). set (b := Z.log2 (Zpos d)).
  pose proof (Z.log2_spec n Hn) as [Ha1 Ha2]. fold a in Ha1, Ha2.
  pose proof (Z.log2_spec (Zpos d) ltac:(lia)) as [Hb1 Hb2]. fold b in Hb1, Hb2.
  pose proof (Z.log2_nonneg n) as Ha0. fold a in Ha0.
  pose proof (Z.log2_nonneg (Zpos d)) as Hb0. fold b in Hb0.
  rewrite Zle_Qle, (pow2_Z a Ha0) in Ha1.
  rewrite Zlt_Qlt, (pow2_Z (Z.succ a) ltac:(lia)) in Ha2.
  rewrite Zle_Qle, (pow2_Z b Hb0) in Hb1.
  rewrite Zlt_Qlt, (pow2_Z (Z.succ b) ltac:(lia)) in Hb2.
  replace (Z.succ a) with (a + 1) in Ha2 by lia.
  replace (Z.succ b) with (b + 1) in Hb2 by lia.
  rewrite pow2_plus in Ha2, Hb2. change (2 ^ 1)%Q with 2%Q in Ha2, Hb2.
  pose proof (pow2_pos a) as Pa. pose proof (pow2_pos b) as Pb.
  assert (Hq : ((n # d) * inject_Z (Zpos d) == inject_Z n)%Q).
  { unfold Qeq, Qmult, inject_Z; cbn. lia. }
  assert (Hk : (2 ^ (a - b) * 2 ^ b == 2 ^ a)%Q).
  { rewrite <- pow2_plus. replace (a - b + b) with a by lia. reflexivity. }
  pose proof (pow2_pos (a - b)) as Pk.
  set (X := (n # d)%Q) in *. set (D := inject_Z (Zpos d)) in *.
  set (N := inject_Z n) in *.
  set (A := (2 ^ a)%Q) in *. set (B := (2 ^ b)%Q) in *. set (K := (2 ^ (a - b))%Q) in *.
  destruct (Qle_bool K X) eqn:E.
  - apply Qle_bool_iff in E. split; [exact E|].
    rewrite pow2_plus. fold K. change (2 ^ 1)%Q with 2%Q.
    apply Qnot_le_lt. intro Hc. nra.
  - assert (E' : (X < K)%Q).
    { apply Qnot_le_lt. intro Hc. apply Qle_bool_iff in Hc. congruence. }
    replace (a - b - 1 + 1) with (a - b) by lia. fold K. split; [|exact E'].
    assert (Hh : (2 ^ (a - b - 1) * 2 == K)%Q).
    { unfold K. replace (a - b) with (a - b - 1 + 1) at 2 by lia.
      rewrite pow2_plus. reflexivity. }
    pose proof (pow2_pos (a - b - 1)) as Ph.
    set (H2 := (2 ^ (a - b - 1))%Q) in *.
    apply Qnot_lt_le. intro Hc. nra.
Qed.

Lemma ilog2_mono (x y : Q) :
  (0 < x)%Q -> (x <= y)%Q -> ilog2 x <= ilog2 y.
Proof.
  intros Hx Hxy.
  destruct (ilog2_spec x Hx) as [Hx1 _].
  destruct (ilog2_spec y ltac:(lra)) as [_ Hy2].
  assert (H : ilog2 x < ilog2 y + 1); [|lia].
  apply (Qpower_lt_compat_l_inv 2); [lra|reflexivity].
Qed.

Lemma double_pos_nonneg (x : Q) : (0 < x)%Q -> (0 <= double_pos x)%Q.
Proof.
  intro Hx. unfold double_pos.
  pose proof (scaled_round_ge x (last_place x) 0) as H.
  rewrite Qmult_0_l in H. apply H. lra.
Qed.

Lemma double_pos_mono (x y : Q) :
  (0 < x)%Q -> (x <= y)%Q -> (double_pos x <= double_pos y)%Q.
Proof.
  intros Hx Hxy. assert (Hy : (0 < y)%Q) by lra.
  pose proof (ilog2_mono x y Hx Hxy) as Hk.
  destruct (ilog2_spec x Hx) as [_ Hx2].
  destruct (ilog2_spec y Hy) as [Hy1 _].
  unfold double_pos.
  destruct (Z.eq_dec (last_place x) (last_place y)) as [E|N].
  - rewrite E. pose proof (pow2_pos (last_place y)) as Hp.
    apply Qmult_le_compat_r; [|lra].
    rewrite <- Zle_Qle. apply round_half_even_mono.
    apply Qmult_le_compat_r; [exact Hxy|].
    apply Qlt_le_weak, Qinv_lt_0_compat, Hp.
  - assert (Hlt : last_place x < last_place y) by (unfold last_place in *; lia).
    assert (Hey : last_place y = ilog2 y - 52) by (unfold last_place in *; lia).
    assert (Hkx : ilog2 x + 1 <= ilog2 y) by (unfold last_place in *; lia).
    assert (Hmid : (inject_Z (2 ^ (ilog2 y - last_place x)) * 2 ^ last_place x
                    == 2 ^ ilog2 y)%Q).
    { rewrite pow2_Z by lia. rewrite <- pow2_plus.
      replace (ilog2 y - last_place x + last_place x) with (ilog2 y) by lia.
      reflexivity. }
    assert (Hmid' : (inject_Z (2 ^ 52) * 2 ^ last_place y == 2 ^ ilog2 y)%Q).
    { rewrite pow2_Z by lia. rewrite <- pow2_plus, Hey.
      replace (52 + (ilog2 y - 52)) with (ilog2 y) by lia. reflexivity. }
    apply Qle_trans with (2 ^ ilog2 y)%Q.
    + rewrite <- Hmid. apply scaled_round_le. rewrite Hmid.
      pose proof (pow2_le _ _ Hkx). lra.
    + rewrite <- Hmid'. apply scaled_round_ge. rewrite Hmid'. exact Hy1.
Qed.

(** Rounding to doubles keeps the order. *)
Lemma double_mono (x y : Q) : (x <= y)%Q -> (double x <= double y)%Q.
Proof.
  intro Hxy. unfold double.
  destruct (Qcompare_spec x 0) as [Hx|Hx|Hx];
    destruct (Qcompare_spec y 0) as [Hy|Hy|Hy]; try lra.
  - apply double_pos_nonneg. exact Hy.
  - pose proof (double_pos_nonneg (- x) ltac:(lra)). lra.
  - pose proof (double_pos_mono (- y) (- x) ltac:(lra) ltac:(lra)). lra.
  - pose proof (double_pos_nonneg (- x) ltac:(lra)).
    pose proof (double_pos_nonneg y Hy). lra.
  - apply double_pos_mono; assumption.
Qed.

(** Below 1 the largest double is 1 - 2^-53. *)
Lemma double_below_one (u : Q) :
  is_double u -> (u < 1)%Q -> (u <= 1 - 2 ^ (-53))%Q.
Proof.
  intros (m & e & Hm & He & Hu) H1.
  destruct (Z_lt_le_dec e (-53)) as [Hlow|Hhigh].
  - assert (Hp : (2 ^ e <= 2 ^ (-54))%Q) by (apply pow2_le; lia).
    pose proof (pow2_pos e) as Pe.
    assert (Hmq : (inject_Z m <= inject_Z (2 ^ 53))%Q) by (rewrite <- Zle_Qle; lia).
    assert (Hb : (inject_Z m * 2 ^ e <= inject_Z (2 ^ 53) * 2 ^ (-54))%Q).
    { apply Qle_trans with (inject_Z (2 ^ 53) * 2 ^ e)%Q.
      - apply Qmult_le_compat_r; lra.
      - apply Qmult_le_l; [reflexivity|exact Hp]. }
    rewrite Hu. apply (Qle_trans _ _ _ Hb). discriminate.
  - assert (Hi : (u * inject_Z (2 ^ 53) == inject_Z (m * 2 ^ (e + 53)))%Q).
    { rewrite Hu, inject_Z_mult, (pow2_Z (e + 53)) by lia.
      rewrite (pow2_Z 53) by lia. rewrite pow2_plus. ring. }
    assert (Hlt : m * 2 ^ (e + 53) < 2 ^ 53).
    { rewrite Zlt_Qlt, <- Hi.
      assert (P : (0 < inject_Z (2 ^ 53))%Q) by reflexivity.
      nra. }
    assert (Hle : m * 2 ^ (e + 53) <= 2 ^ 53 - 1) by lia.
    rewrite Zle_Qle, <- Hi in Hle.
    change (inject_Z (2 ^ 53 - 1)) with (9007199254740991 # 1)%Q in Hle.
    change (inject_Z (2 ^ 53)) with (9007199254740992 # 1)%Q in Hle.
    change (2 ^ (-53))%Q with (1 # 9007199254740992)%Q. lra.
Qed.

Lemma double_0 : (double 0 == 0)%Q.
Proof. reflexivity. Qed.

Lemma double_nonneg (x : Q) : (0 <= x)%Q -> (0 <= double x)%Q.
Proof. intro H. pose proof (double_mono 0 x H) as Hm. pose proof double_0. lra. Qed.

Lemma double_eq (x y : Q) : (x == y)%Q -> (double x == double y)%Q.
Proof.
  intro H. pose proof (double_mono x y ltac:(lra)). pose proof (double_mono y x ltac:(lra)).
  lra.
Qed.

Lemma double_between (lo hi x : Q) :
  (double lo == lo)%Q -> (double hi == hi)%Q ->
  (lo <= x)%Q -> (x <= hi)%Q ->
  (lo <= double x)%Q /\ (double x <= hi)%Q.
Proof.
  intros Hlo Hhi H1 H2.
  pose proof (double_mono _ _ H1). pose proof (double_mono _ _ H2). split; lra.
Qed.

(** ** Severity classifier *)

(** C2: [getSeverity] is [ok] exactly off waste patterns, and on a waste
    pattern it is the first of critical, high, warn whose threshold the
    seconds have reached, else mild, so never [ok]; with thresholds
    10/25/45 it maps 0, 10, 25, 45 to mild, warn, high, critical. *)
Theorem getSeverity_cascade (s : Z) (th : Thresholds.t) :
  getSeverity s th false = ok /\
  getSeverity s th true <> ok /\
  (Thresholds.critical th <= s -> getSeverity s th true = critical) /\
  (s < Thresholds.critical th -> Thresholds.high th <= s ->
   getSeverity s th true = high) /\
  (s < Thresholds.critical th -> s < Thresholds.high th ->
   Thresholds.warn th <= s -> getSeverity s th true = warn) /\
  (s < Thresholds.critical th -> s < Thresholds.high th ->
   s < Thresholds.warn th -> getSeverity s th true = mild) /\
  getSeverity 0 (Thresholds.mk 10 25 45) true = mild /\
  getSeverity 10 (Thresholds.mk 10 25 45) true = warn /\
  getSeverity 25 (Thresholds.mk 10 25 45) true = high /\
  getSeverity 45 (Thresholds.mk 10 25 45) true = critical.
Proof.
  unfold getSeverity; cbn [negb].
  repeat split; try reflexivity; intros;
    repeat match goal with
           | |- context [?a >=? ?b] => destruct (Z.geb_spec a b)
           end; try reflexivity; try discriminate; lia.
Qed.

Lemma getSeverity_cascade_witness :
  getSeverity 30 (thresholds DEFAULT_CONFIG) true = high.
Proof.
  apply (proj1 (proj2 (proj2 (proj2 (getSeverity_cascade 30 (thresholds DEFAULT_CONFIG))))));
    simpl; lia.
Defined.

(** ** Escalation detector *)

Lemma indexOf_order (s : Severity) : indexOf order s = ladder_rank s.
Proof. destruct s; reflexivity. Qed.

Lemma escalation_effect_active (s last : Severity) :
  escalation_effect (active_waste s) last =
  (if ladder_rank last <? ladder_rank s
   then [CallPing (700 + ladder_rank s * 100) 100; CallVibrate (25 + ladder_rank s * 10)]
   else [],
   s).
Proof.
  unfold escalation_effect; cbn [active_waste in_snoozed in_running in_waste in_sever orb negb].
  rewrite !indexOf_order, Z.gtb_ltb. reflexivity.
Qed.

Lemma last_cons (s : Severity) (rest : list Severity) : forall d,
  List.last (s :: rest) d = List.last rest s.
Proof.
  revert s. induction rest as [|x rest IH]; intros s d; [reflexivity|].
  change (List.last (s :: x :: rest) d) with (List.last (x :: rest) d).
  rewrite (IH x d), (IH x s). reflexivity.
Qed.

Lemma escalation_run_active (sevs : list Severity) : forall last,
  map fired (fst (escalation_run last (map active_waste sevs))) = upward_edges last sevs /\
  snd (escalation_run last (map active_waste sevs)) = List.last sevs last.
Proof.
  induction sevs as [|s rest IH]; intro last; [split; reflexivity|].
  cbn [map escalation_run upward_edges].
  rewrite escalation_effect_active.
  specialize (IH s).
  destruct (escalation_run s (map active_waste rest)) as [more final].
  cbn [fst snd map] in *. destruct IH as [IH1 IH2]. split.
  - rewrite IH1. destruct (ladder_rank last <? ladder_rank s); reflexivity.
  - rewrite IH2. symmetry. apply last_cons.
Qed.

(** C1: on renders of waste patterns that are neither snoozed nor paused the
    effect fires exactly when the rank of the current severity is above the
    rank of the recorded one, and records the current severity whichever way
    it moved; over a whole sequence the firing ticks are the strict upward
    steps between neighbours; mild, mild, warn, warn, high, mild, high
    from mount fires three times. *)
Theorem escalation_edge_triggered :
  (forall last s,
     (fired (fst (escalation_effect (active_waste s) last)) = true <->
      ladder_rank last < ladder_rank s) /\
     snd (escalation_effect (active_waste s) last) = s) /\
  (forall last sevs,
     map fired (fst (escalation_run last (map active_waste sevs))) =
       upward_edges last sevs /\
     snd (escalation_run last (map active_waste sevs)) = List.last sevs last) /\
  events (fst (escalation_session
                 (map active_waste [mild; mild; warn; warn; high; mild; high]))) = 3%nat.
Proof.
  split; [|split].
  - intros last s. rewrite escalation_effect_active. cbn [fst snd]. split; [|reflexivity].
    destruct (Z.ltb_spec (ladder_rank last) (ladder_rank s)); cbn [fired]; split;
      intros; try reflexivity; try discriminate; lia.
  - intros last sevs. apply escalation_run_active.
  - reflexivity.
Qed.

(** A second render with the values of the first makes no call and leaves
    the ref alone: the renders between two ticks do not matter. *)
Lemma escalation_effect_rerun (i : EffectInput) (last : Severity) :
  escalation_effect i (snd (escalation_effect i last)) =
  ([], snd (escalation_effect i last)).
Proof.
  unfold escalation_effect.
  destruct (in_snoozed i || negb (in_running i)) eqn:E; cbn [snd]; rewrite ?E;
    [reflexivity|].
  destruct (in_waste i); [|reflexivity].
  rewrite Z.gtb_ltb, Z.ltb_irrefl. reflexivity.
Qed.

(** With an [ok] render recorded before it, as after the mount of the
    default session, the same sequence fires once more, on its first mild. *)
Lemma escalation_from_ok_fires_on_first_mild :
  events (fst (escalation_run ok
                 (map active_waste [mild; mild; warn; warn; high; mild; high]))) = 4%nat.
Proof. reflexivity. Qed.

Lemma escalation_effect_suppressed (i : EffectInput) (last : Severity) :
  suppressed i -> escalation_effect i last = ([], last).
Proof.
  unfold escalation_effect. intros [H|H]; rewrite H; [reflexivity|].
  rewrite orb_true_r. reflexivity.
Qed.

Lemma escalation_run_suppressed (ss : list EffectInput) (last : Severity) :
  Forall suppressed ss ->
  escalation_run last ss = (repeat [] (List.length ss), last).
Proof.
  induction 1 as [|i rest Hi _ IH]; [reflexivity|].
  cbn [escalation_run]. rewrite (escalation_effect_suppressed _ _ Hi), IH. reflexivity.
Qed.

Lemma escalation_run_app (rs1 rs2 : list EffectInput) : forall last,
  escalation_run last (rs1 ++ rs2) =
  (fst (escalation_run last rs1) ++
   fst (escalation_run (snd (escalation_run last rs1)) rs2),
   snd (escalation_run (snd (escalation_run last rs1)) rs2)).
Proof.
  induction rs1 as [|i rest IH]; intro last.
  - cbn. destruct (escalation_run last rs2); reflexivity.
  - cbn [app escalation_run].
    destruct (escalation_effect i last) as [calls last'].
    rewrite IH.
    destruct (escalation_run last' rest) as [m1 f1]. cbn [fst snd].
    destruct (escalation_run f1 rs2) as [m2 f2]. reflexivity.
Qed.

Lemma events_app (t1 t2 : list (list FeedbackCall)) :
  events (t1 ++ t2) = (events t1 + events t2)%nat.
Proof. unfold events. rewrite filter_app, length_app. reflexivity. Qed.

Lemma events_repeat_nil (n : nat) : events (repeat [] n) = 0%nat.
Proof. induction n; [reflexivity|]. exact IHn. Qed.

(** C3: renders that are snoozed or paused make no call and leave the
    recorded severity as it was, whatever their severities; the first render
    after them on a waste pattern whose rank is above the recorded one fires
    once and records its severity, and a second render at that severity does
    not fire again. *)
Theorem snooze_keeps_last_severity (last : Severity) (ss : list EffectInput)
  (s : Severity) :
  Forall suppressed ss ->
  ladder_rank last < ladder_rank s ->
  escalation_run last ss = (repeat [] (List.length ss), last) /\
  escalation_run last (ss ++ [active_waste s; active_waste s]) =
    (repeat [] (List.length ss) ++
     [[CallPing (700 + ladder_rank s * 100) 100; CallVibrate (25 + ladder_rank s * 10)];
      []],
     s) /\
  events (fst (escalation_run last (ss ++ [active_waste s; active_waste s]))) = 1%nat.
Proof.
  intros Hss Hup.
  pose proof (escalation_run_suppressed ss last Hss) as Hrun.
  assert (Hlt : (ladder_rank last <? ladder_rank s) = true) by (apply Z.ltb_lt; exact Hup).
  assert (Hrefl : (ladder_rank s <? ladder_rank s) = false) by apply Z.ltb_irrefl.
  assert (Htail : escalation_run last (ss ++ [active_waste s; active_waste s]) =
    (repeat [] (List.length ss) ++
     [[CallPing (700 + ladder_rank s * 100) 100; CallVibrate (25 + ladder_rank s * 10)];
      []], s)).
  { rewrite escalation_run_app, Hrun. cbn [fst snd escalation_run].
    rewrite !escalation_effect_active, Hlt, Hrefl. reflexivity. }
  split; [exact Hrun|]. split; [exact Htail|].
  rewrite Htail. cbn [fst]. rewrite events_app, events_repeat_nil. reflexivity.
Qed.

Lemma snooze_keeps_last_severity_witness :
  events (fst (escalation_run mild
    ([ {| in_sever := critical; in_waste := true; in_snoozed := true; in_running := true |};
       {| in_sever := high; in_waste := true; in_snoozed := false; in_running := false |} ]
     ++ [active_waste warn; active_waste warn]))) = 1%nat.
Proof.
  apply (snooze_keeps_last_severity mild
    [ {| in_sever := critical; in_waste := true; in_snoozed := true; in_running := true |};
      {| in_sever := high; in_waste := true; in_snoozed := false; in_running := false |} ]
    warn).
  - constructor; [left; reflexivity|].
    constructor; [right; reflexivity|]. constructor.
  - simpl; lia.
Defined.

(** ** Mute and reduced motion *)

Lemma vibrate_outputs (rm : bool) (dev : Device) (ms f d : Z) :
  ~ In (Tone f d) (vibrate rm dev ms).
Proof.
  unfold vibrate. destruct rm; [intros []|].
  destruct (hasVibrate dev); [|intros []].
  intros [H|[]]. discriminate H.
Qed.

(** C10: on an escalation edge of a muted overlay without reduced motion the
    effect still calls both capabilities, the ping returns without a tone,
    and what reaches the device is exactly what [vibrate] does with
    25 + 10 * index, a pulse of that length wherever the browser can vibrate;
    the vibration of a call does not depend on the mute flag, only on
    reduced motion. *)
Theorem mute_silences_tone_only (config : Config) (env : Ambient) (o : Overlay) :
  (now env <? snoozedUntil o) = false ->
  running o = true ->
  waste (pattern (state (stream o))) = true ->
  ladder_rank (lastSever o) < ladder_rank (sever config o) ->
  muted o = true ->
  reducedMotion env = false ->
  let idx := ladder_rank (sever config o) in
  fst (escalation_effect (effect_input config env o) (lastSever o)) =
    [CallPing (700 + idx * 100) 100; CallVibrate (25 + idx * 10)] /\
  ping (muted o) (device env) (700 + idx * 100) 100 = [] /\
  snd (commit config env o) = vibrate (reducedMotion env) (device env) (25 + 10 * idx) /\
  (forall f d, ~ In (Tone f d) (snd (commit config env o))) /\
  (hasVibrate (device env) = true ->
   snd (commit config env o) = [Vibration (25 + 10 * idx)]) /\
  (forall m rm dev ms,
     perform m rm dev (CallVibrate ms) =
     if rm then [] else if hasVibrate dev then [Vibration ms] else []).
Proof.
  intros Hsnooze Hrun Hwaste Hup Hmuted Hrm idx.
  assert (Hcalls : escalation_effect (effect_input config env o) (lastSever o) =
    ([CallPing (700 + idx * 100) 100; CallVibrate (25 + idx * 10)], sever config o)).
  { unfold escalation_effect, effect_input; cbn [in_snoozed in_running in_waste in_sever].
    rewrite Hsnooze, Hrun, Hwaste, !indexOf_order. cbn [orb negb].
    replace (ladder_rank (sever config o) >? ladder_rank (lastSever o)) with true
      by (symmetry; apply Z.gtb_lt; exact Hup).
    reflexivity. }
  assert (Hout : snd (commit config env o) =
    vibrate (reducedMotion env) (device env) (25 + 10 * idx)).
  { unfold commit. rewrite Hcalls. cbn [snd perform_all flat_map perform].
    rewrite Hmuted. cbn [ping app]. rewrite app_nil_r.
    f_equal; lia. }
  split; [rewrite Hcalls; reflexivity|].
  split; [rewrite Hmuted; reflexivity|].
  split; [exact Hout|].
  split; [intros f d; rewrite Hout; apply vibrate_outputs|].
  split; [intro Hv; rewrite Hout, Hrm; unfold vibrate; rewrite Hv; reflexivity|].
  reflexivity.
Qed.

Lemma mute_silences_tone_only_witness :
  snd (commit DEFAULT_CONFIG phone muted_idling) = [Vibration 35].
Proof.
  apply (mute_silences_tone_only DEFAULT_CONFIG phone muted_idling);
    try reflexivity.
Defined.

(** ** Weighted selection *)

Lemma Qneg_bool_true (x : Q) : Qneg_bool x = true <-> (x < 0)%Q.
Proof.
  unfold Qneg_bool. rewrite negb_true_iff. split.
  - intro H. apply Qnot_le_lt. intro Hle.
    apply Qle_bool_iff in Hle. congruence.
  - intro H. destruct (Qle_bool 0 x) eqn:E; [|reflexivity].
    apply Qle_bool_iff in E. lra.
Qed.

Lemma Qneg_bool_false (x : Q) : Qneg_bool x = false <-> (0 <= x)%Q.
Proof.
  unfold Qneg_bool. rewrite negb_false_iff. apply Qle_bool_iff.
Qed.

(** What [find] returns, for any weights: the first entry after whose
    subtraction the running value is negative. *)
Lemma find_draw_first_negative (pool : list Weighted.t) : forall (r : Q) (p : Weighted.t),
  find_draw pool r = Some p ->
  exists i,
    nth_error pool i = Some p /\
    (running_value pool r (S i) < 0)%Q /\
    (forall j, (j < i)%nat -> (0 <= running_value pool r (S j))%Q).
Proof.
  induction pool as [|q rest IH]; intros r p Hfind; [discriminate|].
  cbn [find_draw] in Hfind.
  destruct (Qneg_bool (double (r - Weighted.w q))) eqn:E.
  - injection Hfind as <-. exists 0%nat. split; [reflexivity|]. split.
    + apply Qneg_bool_true in E. exact E.
    + intros j Hj; lia.
  - apply Qneg_bool_false in E.
    destruct (IH _ _ Hfind) as (i & Hnth & Hneg & Hpre).
    exists (S i). split; [exact Hnth|]. split; [exact Hneg|].
    intros [|j] Hj; [exact E|]. apply (Hpre j). lia.
Qed.

(** [find] finds nothing only when the running value stays at zero or
    above to the end of the table, and then it does so from every larger
    start as well. *)
Lemma find_draw_none (pool : list Weighted.t) : forall r b : Q,
  find_draw pool r = None ->
  (0 <= r)%Q -> (r <= b)%Q ->
  (0 <= running_value pool b (List.length pool))%Q.
Proof.
  induction pool as [|q rest IH]; intros r b Hnone Hr Hb.
  - cbn. lra.
  - cbn [find_draw] in Hnone.
    destruct (Qneg_bool (double (r - Weighted.w q))) eqn:E; [discriminate|].
    apply Qneg_bool_false in E.
    cbn [List.length running_value].
    apply (IH (double (r - Weighted.w q))); [exact Hnone|exact E|].
    apply double_mono. lra.
Qed.

Lemma weightedPool_positive : positive_pool weightedPool.
Proof. repeat constructor. Qed.

Lemma weightedPool_keys_nonempty :
  Forall (fun p => String.eqb (Weighted.key p) "" = false) weightedPool.
Proof. repeat constructor. Qed.

Lemma weightedPool_keys_catalogued :
  Forall (fun p => exists q, lookup (patterns DEFAULT_CONFIG) (Weighted.key p) = Some q /\
                             key q = Weighted.key p) weightedPool.
Proof. repeat constructor; eexists; split; reflexivity. Qed.

Lemma find_draw_In (pool : list Weighted.t) : forall r p,
  find_draw pool r = Some p -> In p pool.
Proof.
  induction pool as [|q rest IH]; intros r p H; [discriminate|].
  cbn [find_draw] in H. destruct (Qneg_bool (double (r - Weighted.w q))).
  - injection H as <-. left; reflexivity.
  - right. eapply IH; eassumption.
Qed.

Lemma total_weightedPool : (total weightedPool == 84)%Q.
Proof. vm_compute. reflexivity. Qed.

(** The draw for the pool of the source: at least 0 and at most the double
    just below 84. *)
Lemma draw_weightedPool (u : Q) :
  is_double u -> (0 <= u)%Q -> (u < 1)%Q ->
  (0 <= double (u * total weightedPool))%Q /\
  (double (u * total weightedPool) <= double (below_one * 84))%Q.
Proof.
  intros Hd Hu0 Hu1.
  pose proof (double_below_one u Hd Hu1) as Hgap. fold below_one in Hgap.
  pose proof total_weightedPool as HT.
  assert (Hprod : (u * total weightedPool == u * 84)%Q) by (rewrite HT; reflexivity).
  split.
  - apply double_nonneg. lra.
  - apply double_mono. lra.
Qed.

(** On the pool of the source a draw of [Math.random()] always finds an
    entry. *)
Lemma find_draw_weightedPool (u : Q) :
  is_double u -> (0 <= u)%Q -> (u < 1)%Q ->
  exists p, find_draw weightedPool (double (u * total weightedPool)) = Some p.
Proof.
  intros Hd Hu0 Hu1.
  destruct (draw_weightedPool u Hd Hu0 Hu1) as [Hr0 Hr1].
  destruct (find_draw weightedPool (double (u * total weightedPool))) as [p|] eqn:Hfind;
    [exists p; reflexivity|].
  pose proof (find_draw_none _ _ _ Hfind Hr0 Hr1) as Hend.
  exfalso. revert Hend. vm_compute. intro H. apply H. reflexivity.
Qed.

(** C7, as the specification states it, fails: on the pool of the positive
    weights 0.1, 0.2 and 0.3, whose sum in doubles is 0.6000000000000001,
    the value 0.9999999999999999 of [Math.random()] gives a draw within
    [0, total) from which the three subtractions, rounded, end at zero: no
    entry is found and the fallback key is chosen. *)
Lemma rounded_draw_finds_no_entry :
  positive_pool tenths /\
  is_double below_one /\
  (0 <= below_one)%Q /\ (below_one < 1)%Q /\
  (0 <= double (below_one * total tenths))%Q /\
  (double (below_one * total tenths) < total tenths)%Q /\
  find_draw tenths (double (below_one * total tenths)) = None /\
  chosenKey tenths below_one = "FOCUSED".
Proof.
  split; [repeat constructor|].
  split; [exists (2 ^ 53 - 1)%Z, (-53)%Z; repeat split; vm_compute; congruence|].
  repeat split; vm_compute; congruence.
Qed.

(** C7, amended: for any pool [find] returns the first entry after whose
    subtraction the running value, rounded as the code rounds it, is
    negative, and it finds an entry for every draw at or below a bound
    from which the running value ends negative.  For the pool of the
    source, whose total is 84, and every value of [Math.random()], a double
    in [0, 1), the draw is in [0, 84), exactly one position is selected, the
    chosen key is the key of its entry, not the fallback, and [pickPattern]
    returns the catalogue entry of that key. *)
Theorem weighted_draw_selects_one :
  (forall (pool : list Weighted.t) (r : Q) (p : Weighted.t),
     find_draw pool r = Some p ->
     exists i,
       nth_error pool i = Some p /\
       (running_value pool r (S i) < 0)%Q /\
       (forall j, (j < i)%nat -> (0 <= running_value pool r (S j))%Q)) /\
  (forall (pool : list Weighted.t) (r b : Q),
     (0 <= r)%Q -> (r <= b)%Q ->
     (running_value pool b (List.length pool) < 0)%Q ->
     exists p, find_draw pool r = Some p) /\
  (forall u : Q, is_double u -> (0 <= u)%Q -> (u < 1)%Q ->
     (total weightedPool == 84)%Q /\
     (0 <= double (u * total weightedPool))%Q /\
     (double (u * total weightedPool) < total weightedPool)%Q /\
     exists i p q,
       nth_error weightedPool i = Some p /\
       find_draw weightedPool (double (u * total weightedPool)) = Some p /\
       (running_value weightedPool (double (u * total weightedPool)) (S i) < 0)%Q /\
       (forall j, (j < i)%nat ->
          (0 <= running_value weightedPool (double (u * total weightedPool)) (S j))%Q) /\
       (forall j,
          (running_value weightedPool (double (u * total weightedPool)) (S j) < 0)%Q ->
          (forall l, (l < j)%nat ->
             (0 <= running_value weightedPool (double (u * total weightedPool)) (S l))%Q) ->
          j = i) /\
       chosenKey weightedPool u = Weighted.key p /\
       pickPattern u = Some q /\
       key q = Weighted.key p).
Proof.
  split; [exact find_draw_first_negative|]. split.
  - intros pool r b Hr Hb Hend.
    destruct (find_draw pool r) as [p|] eqn:Hfind; [exists p; reflexivity|].
    pose proof (find_draw_none _ _ _ Hfind Hr Hb). lra.
  - intros u Hd Hu0 Hu1.
    pose proof total_weightedPool as HT.
    destruct (draw_weightedPool u Hd Hu0 Hu1) as [Hr0 Hr1].
    split; [exact HT|]. split; [exact Hr0|]. split.
    { assert (Hb : (double (below_one * 84) < 84)%Q) by (vm_compute; reflexivity).
      lra. }
    destruct (find_draw_weightedPool u Hd Hu0 Hu1) as (p & Hfind).
    destruct (find_draw_first_negative _ _ _ Hfind) as (i & Hnth & Hneg & Hpre).
    pose proof (find_draw_In _ _ _ Hfind) as Hin.
    assert (Hkey : chosenKey weightedPool u = Weighted.key p).
    { unfold chosenKey. rewrite Hfind.
      pose proof weightedPool_keys_nonempty as Hkeys.
      rewrite Forall_forall in Hkeys. rewrite (Hkeys p Hin). reflexivity. }
    pose proof weightedPool_keys_catalogued as Hcat.
    rewrite Forall_forall in Hcat. destruct (Hcat p Hin) as (q & Hq & Hqk).
    exists i, p, q. split; [exact Hnth|]. split; [exact Hfind|].
    split; [exact Hneg|]. split; [exact Hpre|]. split.
    { intros j Hj Hjpre.
      destruct (Nat.lt_trichotomy j i) as [Hlt|[Heq|Hgt]]; [|exact Heq|].
      - specialize (Hpre j Hlt). lra.
      - specialize (Hjpre i Hgt). lra. }
    split; [exact Hkey|].
    unfold pickPattern. rewrite Hkey. split; [exact Hq|exact Hqk].
Qed.

Lemma is_double_half : is_double (1 # 2).
Proof. exists 1%Z, (-1)%Z. repeat split; vm_compute; congruence. Qed.

Lemma weighted_draw_selects_one_witness :
  (exists i,
     nth_error weightedPool i = Some (Weighted.mk "SOCIALIZING" 8) /\
     (running_value weightedPool 42 (S i) < 0)%Q /\
     (forall j, (j < i)%nat -> (0 <= running_value weightedPool 42 (S j))%Q)) /\
  (exists p, find_draw weightedPool 42 = Some p) /\
  (total weightedPool == 84)%Q /\
  (0 <= double ((1 # 2) * total weightedPool))%Q /\
  (double ((1 # 2) * total weightedPool) < total weightedPool)%Q.
Proof.
  split; [|split].
  - apply (proj1 weighted_draw_selects_one weightedPool 42%Q). vm_compute. reflexivity.
  - apply (proj1 (proj2 weighted_draw_selects_one) weightedPool 42%Q 83%Q);
      vm_compute; congruence.
  - destruct (proj2 (proj2 weighted_draw_selects_one) (1 # 2) is_double_half)
      as (H1 & H2 & H3 & _); [discriminate|reflexivity|].
    split; [exact H1|]. split; [exact H2|exact H3].
Defined.

(** ** Catalogue lookup *)

Lemma lookup_nonempty (c : BehaviorPattern) (rest : list BehaviorPattern) (k : string) :
  exists p, lookup (c :: rest) k = Some p /\ In p (c :: rest).
Proof.
  unfold lookup.
  destruct (find (fun p => String.eqb (key p) k) (c :: rest)) as [p|] eqn:E.
  - exists p. split; [reflexivity|]. apply find_some in E. tauto.
  - exists c. split; [reflexivity|]. left; reflexivity.
Qed.

Lemma lookup_absent (c : BehaviorPattern) (rest : list BehaviorPattern) (k : string) :
  absent (c :: rest) k -> lookup (c :: rest) k = Some c.
Proof.
  intro Habs. unfold lookup.
  destruct (find (fun p => String.eqb (key p) k) (c :: rest)) as [p|] eqn:E;
    [|reflexivity].
  apply find_some in E. destruct E as [Hin Hk].
  apply String.eqb_eq in Hk. exfalso. exact (Habs p Hin Hk).
Qed.

Lemma pickPattern_total (u : Q) :
  exists p, pickPattern u = Some p /\ In p (patterns DEFAULT_CONFIG).
Proof. unfold pickPattern. apply lookup_nonempty. Qed.

Lemma tick_total (random : nat -> Q) (g : Gen) : exists g', tick random g = Some g'.
Proof.
  unfold tick. destruct (dwellLeft g <=? 0); [|eexists; reflexivity].
  destruct (pickPattern_total (random (draws g))) as (p & -> & _).
  eexists; reflexivity.
Qed.

Lemma ticks_total (random : nat -> Q) (n : nat) : forall g,
  exists g', ticks random n g = Some g'.
Proof.
  induction n as [|n IH]; intro g; [eexists; reflexivity|].
  cbn [ticks]. destruct (tick_total random g) as (g1 & ->). apply IH.
Qed.

(** C8: on a catalogue with a first entry the lookup of any key returns an
    entry of the catalogue, the first one when no entry carries the key; so
    [pickPattern] returns a catalogue entry for every draw, and the tick
    never fails, singly or in a row. *)
Theorem lookup_miss_falls_back (k : string) :
  (forall c rest,
     (exists p, lookup (c :: rest) k = Some p /\ In p (c :: rest)) /\
     (absent (c :: rest) k -> lookup (c :: rest) k = Some c)) /\
  (absent (patterns DEFAULT_CONFIG) k ->
   lookup (patterns DEFAULT_CONFIG) k =
     Some {| key := "FOCUSED"; label := "Focused"; waste := false |}) /\
  (forall u, exists p, pickPattern u = Some p /\ In p (patterns DEFAULT_CONFIG)) /\
  (forall random g, exists g', tick random g = Some g') /\
  (forall random n g, exists g', ticks random n g = Some g').
Proof.
  split; [|split; [|split; [|split]]].
  - intros c rest. split; [apply lookup_nonempty|apply lookup_absent].
  - intro H. apply (lookup_absent _ _ _ H).
  - apply pickPattern_total.
  - apply tick_total.
  - apply ticks_total.
Qed.

Lemma lookup_miss_falls_back_witness :
  lookup (patterns DEFAULT_CONFIG) "NAPPING" =
    Some {| key := "FOCUSED"; label := "Focused"; waste := false |}.
Proof.
  apply (proj1 (proj2 (lookup_miss_falls_back "NAPPING"))).
  intros p Hin.
  repeat (destruct Hin as [<-|Hin]; [discriminate|]). destruct Hin.
Defined.

(** ** Session accumulator *)

Lemma tick_counters (random : nat -> Q) (g g' : Gen) :
  tick random g = Some g' ->
  sessionSec (state g') = sessionSec (state g) + 1 /\
  wastedSec (state g') =
    wastedSec (state g) + (if waste (pattern (state g')) then 1 else 0).
Proof.
  unfold tick. intro H.
  destruct (dwellLeft g <=? 0).
  - destruct (pickPattern (random (draws g))) as [p|]; [|discriminate].
    injection H as <-. cbn. destruct (waste p); split; lia.
  - injection H as <-. cbn. destruct (waste (pattern (state g))); split; lia.
Qed.

Lemma ticks_counters (random : nat -> Q) (n : nat) : forall g gn,
  ticks random n g = Some gn ->
  sessionSec (state gn) = sessionSec (state g) + Z.of_nat n /\
  wastedSec (state g) <= wastedSec (state gn) /\
  wastedSec (state gn) - wastedSec (state g) <= Z.of_nat n.
Proof.
  induction n as [|n IH]; intros g gn H.
  - injection H as <-. cbn. lia.
  - cbn [ticks] in H. destruct (tick random g) as [g1|] eqn:E; [|discriminate].
    apply tick_counters in E. destruct E as [E1 E2].
    destruct (IH _ _ H) as (I1 & I2 & I3).
    destruct (waste (pattern (state g1))); lia.
Qed.

(** C4: a tick adds exactly 1 to [sessionSec] and adds 1 to [wastedSec]
    when the pattern of the tick is a waste pattern and nothing otherwise;
    from the mounted hook every number of ticks succeeds and leaves
    [sessionSec] equal to the number of ticks and 0 <= wastedSec <=
    sessionSec, and the next tick lowers neither counter. *)
Theorem accumulator_counts (random : nat -> Q) :
  (forall g g',
     tick random g = Some g' ->
     sessionSec (state g') = sessionSec (state g) + 1 /\
     wastedSec (state g') =
       wastedSec (state g) + (if waste (pattern (state g')) then 1 else 0) /\
     (wastedSec (state g') = wastedSec (state g) + 1 <->
      waste (pattern (state g')) = true)) /\
  (forall config g0 n,
     useSimulatedAIStream config = Some g0 ->
     exists gn gn',
       ticks random n g0 = Some gn /\
       tick random gn = Some gn' /\
       sessionSec (state gn) = Z.of_nat n /\
       counters_ok (state gn) /\
       sessionSec (state gn) <= sessionSec (state gn') /\
       wastedSec (state gn) <= wastedSec (state gn') /\
       counters_ok (state gn')).
Proof.
  split.
  - intros g g' H. destruct (tick_counters _ _ _ H) as [H1 H2].
    split; [exact H1|]. split; [exact H2|].
    rewrite H2. destruct (waste (pattern (state g'))); split; intros; try lia;
      try reflexivity; discriminate.
  - intros config g0 n Hmount.
    destruct (ticks_total random n g0) as (gn & Hn).
    destruct (tick_total random gn) as (gn' & Hn').
    exists gn, gn'. split; [exact Hn|]. split; [exact Hn'|].
    assert (H0 : sessionSec (state g0) = 0 /\ wastedSec (state g0) = 0).
    { unfold useSimulatedAIStream in Hmount.
      destruct (nth_error (patterns config) 0); [|discriminate].
      injection Hmount as <-. split; reflexivity. }
    destruct H0 as [Hs0 Hw0].
    destruct (ticks_counters _ _ _ _ Hn) as (I1 & I2 & I3).
    destruct (tick_counters _ _ _ Hn') as (J1 & J2).
    unfold counters_ok.
    destruct (waste (pattern (state gn'))); repeat split; lia.
Qed.

Lemma accumulator_counts_witness :
  exists gn gn',
    ticks halves 7 {| state := {| pattern := {| key := "FOCUSED"; label := "Focused";
                                                waste := false |};
                                  secondsInPattern := 0; sessionSec := 0;
                                  wastedSec := 0 |};
                      dwellLeft := 0; draws := 0 |} = Some gn /\
    tick halves gn = Some gn' /\
    sessionSec (state gn) = 7 /\
    counters_ok (state gn) /\
    sessionSec (state gn) <= sessionSec (state gn') /\
    wastedSec (state gn) <= wastedSec (state gn') /\
    counters_ok (state gn').
Proof.
  apply (proj2 (accumulator_counts halves) DEFAULT_CONFIG _ 7%nat).
  reflexivity.
Defined.

(** ** Dwell and reselection *)

Lemma Math_round_nearest (x : Q) :
  (inject_Z (Math_round x) - (1 # 2) <= x)%Q /\
  (x < inject_Z (Math_round x) + (1 # 2))%Q.
Proof.
  unfold Math_round.
  pose proof (Qfloor_le (x + (1 # 2))) as Hlo.
  pose proof (Qlt_floor (x + (1 # 2))) as Hhi.
  rewrite inject_Z_plus in Hhi. change (inject_Z 1) with 1%Q in Hhi.
  split; lra.
Qed.

Lemma Math_round_between (lo hi : Z) (x : Q) :
  (inject_Z lo <= x)%Q -> (x < inject_Z hi)%Q ->
  lo <= Math_round x <= hi.
Proof.
  intros Hlo Hhi. destruct (Math_round_nearest x) as [H1 H2]. split.
  - destruct (Z_lt_le_dec (Math_round x) lo) as [Hlt|]; [|assumption].
    assert (Hz : Math_round x + 1 <= lo) by lia.
    rewrite Zle_Qle, inject_Z_plus in Hz. change (inject_Z 1) with 1%Q in Hz. lra.
  - destruct (Z_lt_le_dec hi (Math_round x)) as [Hlt|]; [|assumption].
    assert (Hz : hi + 1 <= Math_round x) by lia.
    rewrite Zle_Qle, inject_Z_plus in Hz. change (inject_Z 1) with 1%Q in Hz. lra.
Qed.

Lemma newDwell_min (p : BehaviorPattern) (u : Q) : 2 <= newDwell p u.
Proof. unfold newDwell. apply Z.le_max_l. Qed.

Lemma tick_reselects (random : nat -> Q) (g : Gen) :
  dwellLeft g <= 0 ->
  exists p g',
    pickPattern (random (draws g)) = Some p /\
    tick random g = Some g' /\
    pattern (state g') = p /\
    secondsInPattern (state g') = 1 /\
    dwellLeft g' = newDwell p (random (S (draws g))) - 1 /\
    draws g' = S (S (draws g)).
Proof.
  intro Hd. unfold tick.
  replace (dwellLeft g <=? 0) with true by (symmetry; apply Z.leb_le; exact Hd).
  destruct (pickPattern_total (random (draws g))) as (p & Hp & _).
  rewrite Hp. exists p. eexists. split; [reflexivity|]. split; [reflexivity|].
  cbn. repeat split.
  pose proof (newDwell_min p (random (S (draws g)))). lia.
Qed.

Lemma newDwell_range (p : BehaviorPattern) (u : Q) :
  (0 <= u)%Q -> (u < 1)%Q ->
  (key p = "FOCUSED" -> 6 <= newDwell p u <= 12) /\
  (key p <> "FOCUSED" -> 10 <= newDwell p u <= 20).
Proof.
  intros Hu0 Hu1. unfold newDwell. split; intro Hk.
  - apply String.eqb_eq in Hk. rewrite Hk. change (inject_Z 6) with 6%Q.
    assert (Hp : (0 <= double (u * 6))%Q /\ (double (u * 6) <= 6)%Q)
      by (apply double_between; try reflexivity; lra).
    assert (Hs : (6 <= double (6 + double (u * 6)))%Q /\
                 (double (6 + double (u * 6)) <= 12)%Q)
      by (apply double_between; try reflexivity; lra).
    assert (H : 6 <= Math_round (double (6 + double (u * 6))) <= 12).
    { destruct (Math_round_nearest (double (6 + double (u * 6)))) as [N1 N2].
      split.
      - destruct (Z_lt_le_dec (Math_round (double (6 + double (u * 6)))) 6) as [Hlt|];
          [|assumption].
        assert (Hz : Math_round (double (6 + double (u * 6))) + 1 <= 6) by lia.
        rewrite Zle_Qle, inject_Z_plus in Hz.
        change (inject_Z 1) with 1%Q in Hz. change (inject_Z 6) with 6%Q in Hz. lra.
      - destruct (Z_lt_le_dec 12 (Math_round (double (6 + double (u * 6))))) as [Hlt|];
          [|assumption].
        assert (Hz : 12 + 1 <= Math_round (double (6 + double (u * 6)))) by lia.
        rewrite Zle_Qle in Hz. change (inject_Z (12 + 1)) with 13%Q in Hz. lra. }
    lia.
  - apply String.eqb_neq in Hk. rewrite Hk. change (inject_Z 10) with 10%Q.
    assert (Hp : (0 <= double (u * 10))%Q /\ (double (u * 10) <= 10)%Q)
      by (apply double_between; try reflexivity; lra).
    assert (Hs : (10 <= double (10 + double (u * 10)))%Q /\
                 (double (10 + double (u * 10)) <= 20)%Q)
      by (apply double_between; try reflexivity; lra).
    assert (H : 10 <= Math_round (double (10 + double (u * 10))) <= 20).
    { destruct (Math_round_nearest (double (10 + double (u * 10)))) as [N1 N2].
      split.
      - destruct (Z_lt_le_dec (Math_round (double (10 + double (u * 10)))) 10) as [Hlt|];
          [|assumption].
        assert (Hz : Math_round (double (10 + double (u * 10))) + 1 <= 10) by lia.
        rewrite Zle_Qle, inject_Z_plus in Hz.
        change (inject_Z 1) with 1%Q in Hz. change (inject_Z 10) with 10%Q in Hz. lra.
      - destruct (Z_lt_le_dec 20 (Math_round (double (10 + double (u * 10))))) as [Hlt|];
          [|assumption].
        assert (Hz : 20 + 1 <= Math_round (double (10 + double (u * 10)))) by lia.
        rewrite Zle_Qle in Hz. change (inject_Z (20 + 1)) with 21%Q in Hz. lra. }
    lia.
Qed.

(** The code at two values of [Math.random()] where rounding decides: at
    0.95 the product 9.5 and the sum 19.5 are exact and the dwell is 20; at
    0.08333333333333333 the sum rounds to 6.5 and the dwell is 7. *)
Lemma newDwell_at_ties :
  newDwell {| key := "SOCIALIZING"; label := "Socializing"; waste := true |}
           (double (95 # 100)) = 20 /\
  newDwell {| key := "FOCUSED"; label := "Focused"; waste := false |}
           (double (8333333333333333 # 100000000000000000)) = 7.
Proof. split; vm_compute; reflexivity. Qed.

(** C5: the dwell drawn for a picked pattern is max(2, round(base + r *
    base)), base 6 for the key FOCUSED and 10 for any other, the product
    and the sum rounded to doubles as the code rounds them and round the
    nearest integer, halves upwards; it is at least 2, and for r in [0, 1)
    it lies between base and twice base.  A tick that starts with no dwell
    left picks a pattern with the next random value, leaves
    seconds-in-pattern at 0 + 1, and keeps dwell - 1 >= 1 for later; the
    mounted hook starts with no dwell left. *)
Theorem dwell_floor_and_reselection (random : nat -> Q) :
  (forall p u,
     (key p = "FOCUSED" ->
      newDwell p u = Z.max 2 (Math_round (double (6 + double (u * 6))))) /\
     (key p <> "FOCUSED" ->
      newDwell p u = Z.max 2 (Math_round (double (10 + double (u * 10))))) /\
     2 <= newDwell p u) /\
  (forall x : Q,
     (inject_Z (Math_round x) - (1 # 2) <= x)%Q /\
     (x < inject_Z (Math_round x) + (1 # 2))%Q) /\
  (forall p u, (0 <= u)%Q -> (u < 1)%Q ->
     (key p = "FOCUSED" -> 6 <= newDwell p u <= 12) /\
     (key p <> "FOCUSED" -> 10 <= newDwell p u <= 20)) /\
  (forall g,
     dwellLeft g <= 0 ->
     exists p g',
       pickPattern (random (draws g)) = Some p /\
       tick random g = Some g' /\
       pattern (state g') = p /\
       secondsInPattern (state g') = 0 + 1 /\
       dwellLeft g' = newDwell p (random (S (draws g))) - 1 /\
       1 <= dwellLeft g' /\
       draws g' = S (S (draws g))) /\
  (forall config g0,
     useSimulatedAIStream config = Some g0 ->
     dwellLeft g0 = 0 /\ secondsInPattern (state g0) = 0).
Proof.
  split; [|split; [|split; [|split]]].
  - intros p u. unfold newDwell. repeat split.
    + intro Hk. apply String.eqb_eq in Hk. rewrite Hk. reflexivity.
    + intro Hk. apply String.eqb_neq in Hk. rewrite Hk. reflexivity.
    + apply Z.le_max_l.
  - apply Math_round_nearest.
  - apply newDwell_range.
  - intros g Hd.
    destruct (tick_reselects random g Hd) as (p & g' & H1 & H2 & H3 & H4 & H5 & H6).
    exists p, g'. repeat split; try assumption.
    pose proof (newDwell_min p (random (S (draws g)))). lia.
  - intros config g0 H. unfold useSimulatedAIStream in H.
    destruct (nth_error (patterns config) 0); [|discriminate].
    injection H as <-. split; reflexivity.
Qed.

Lemma dwell_floor_and_reselection_witness :
  (10 <= newDwell {| key := "IDLING"; label := "Idling"; waste := true |} (1 # 2) <= 20) /\
  (exists p g',
     pickPattern (1 # 2) = Some p /\
     tick halves {| state := {| pattern := {| key := "IDLING"; label := "Idling";
                                              waste := true |};
                                secondsInPattern := 14; sessionSec := 20;
                                wastedSec := 14 |};
                    dwellLeft := 0; draws := 2 |} = Some g' /\
     pattern (state g') = p /\
     secondsInPattern (state g') = 0 + 1 /\
     dwellLeft g' = newDwell p (1 # 2) - 1 /\
     1 <= dwellLeft g' /\
     draws g' = 4%nat) /\
  (dwellLeft default_mount = 0 /\ secondsInPattern (state default_mount) = 0).
Proof.
  split; [|split].
  - apply (proj1 (proj2 (proj2 (dwell_floor_and_reselection halves)))
             {| key := "IDLING"; label := "Idling"; waste := true |} (1 # 2));
      first [discriminate|reflexivity].
  - apply (proj1 (proj2 (proj2 (proj2 (dwell_floor_and_reselection halves))))
             {| state := {| pattern := {| key := "IDLING"; label := "Idling";
                                          waste := true |};
                            secondsInPattern := 14; sessionSec := 20;
                            wastedSec := 14 |};
                dwellLeft := 0; draws := 2 |}).
    simpl; lia.
  - apply (proj2 (proj2 (proj2 (proj2 (dwell_floor_and_reselection halves))))
             DEFAULT_CONFIG default_mount).
    reflexivity.
Defined.

(** ** Session log *)

Lemma length_push (e : LogEntry.row) (L : list LogEntry.row) :
  (List.length (push e L) <= 40)%nat.
Proof. unfold push. apply firstn_le_length. Qed.

Lemma length_log_effect prev ts ai (L : list LogEntry.row) :
  (List.length L <= 40)%nat -> (List.length (log_effect prev ts ai L) <= 40)%nat.
Proof.
  intro HL. unfold log_effect.
  destruct (match prev with None => true | Some d => negb (LogDeps_eqb d (logDeps ai)) end);
    [apply length_push|exact HL].
Qed.

Lemma length_log_run (rs : list (string * StreamState)) : forall prev L,
  (List.length L <= 40)%nat -> (List.length (log_run prev rs L) <= 40)%nat.
Proof.
  induction rs as [|[ts ai] rest IH]; intros prev L HL; [exact HL|].
  cbn [log_run]. apply IH. apply length_log_effect. exact HL.
Qed.

Lemma firstn_app_firstn (n : nat) (A B : list LogEntry.row) :
  firstn n (A ++ firstn n B) = firstn n (A ++ B).
Proof.
  rewrite !firstn_app, firstn_firstn.
  replace (Nat.min (n - List.length A) n) with (n - List.length A)%nat by lia.
  reflexivity.
Qed.

(** Where every render changes a dependency the log is the newest forty of
    all records, newest first. *)
Lemma log_run_changing (rs : list (string * StreamState)) : forall prev L,
  deps_change prev rs ->
  (List.length L <= 40)%nat ->
  log_run prev rs L = firstn 40 (rev (records rs) ++ L).
Proof.
  induction rs as [|[ts ai] rest IH]; intros prev L Hch HL.
  - cbn [log_run records map rev app]. symmetry. apply firstn_all2. exact HL.
  - cbn [deps_change] in Hch. destruct Hch as [Hnow Hrest].
    cbn [log_run]. rewrite (IH _ _ Hrest (length_log_effect _ _ _ _ HL)).
    assert (Hrun : log_effect prev ts ai L = push (entry ts ai) L).
    { unfold log_effect. destruct prev as [d|]; [rewrite Hnow|]; reflexivity. }
    rewrite Hrun. unfold push. rewrite firstn_app_firstn.
    unfold records. cbn [map rev fst snd]. rewrite <- app_assoc. reflexivity.
Qed.

Lemma LogDeps_eqb_refl (d : LogDeps) : LogDeps_eqb d d = true.
Proof.
  destruct d as [[k s] w]. unfold LogDeps_eqb.
  rewrite String.eqb_refl, !Z.eqb_refl. reflexivity.
Qed.

(** A render that shows the state of the render before adds no record. *)
Lemma log_effect_same_deps (ts : string) (ai : StreamState) (L : list LogEntry.row) :
  log_effect (Some (logDeps ai)) ts ai L = L.
Proof. unfold log_effect. rewrite LogDeps_eqb_refl. reflexivity. Qed.

Lemma LogDeps_eqb_seconds (a b : StreamState) :
  secondsInPattern a <> secondsInPattern b ->
  LogDeps_eqb (logDeps a) (logDeps b) = false.
Proof.
  intro H. unfold LogDeps_eqb, logDeps.
  replace (secondsInPattern a =? secondsInPattern b) with false
    by (symmetry; apply Z.eqb_neq; exact H).
  rewrite andb_false_r. reflexivity.
Qed.

(** Every tick changes seconds-in-pattern: a reselection restarts it at 1
    from a value that is not 1, because no dwell is shorter than 2. *)
Lemma tick_between (random : nat -> Q) (g g' : Gen) :
  between_ticks g ->
  tick random g = Some g' ->
  between_ticks g' /\
  secondsInPattern (state g) <> secondsInPattern (state g').
Proof.
  unfold between_ticks, tick. intros [Hpos Hzero] H.
  destruct (Z.leb_spec (dwellLeft g) 0) as [Hd|Hd].
  - destruct (pickPattern (random (draws g))) as [p|]; [|discriminate].
    injection H as <-. cbn.
    pose proof (newDwell_min p (random (S (draws g)))).
    specialize (Hzero Hd). repeat split; lia.
  - injection H as <-. cbn. specialize (Hpos Hd). repeat split; lia.
Qed.

Lemma mount_between (config : Config) (g0 : Gen) :
  useSimulatedAIStream config = Some g0 -> between_ticks g0.
Proof.
  unfold useSimulatedAIStream. destruct (nth_error (patterns config) 0); [|discriminate].
  intro H. injection H as <-. unfold between_ticks; cbn. split; lia.
Qed.

Section SessionLogFacts.

Variable random : nat -> Q.
Variable clock : nat -> string.

Lemma renders_from_change (n : nat) : forall k g,
  between_ticks g ->
  deps_change (Some (logDeps (state g))) (renders_from random clock k n g).
Proof.
  induction n as [|n IH]; intros k g Hg; [exact I|].
  cbn [renders_from]. destruct (tick random g) as [g'|] eqn:E; [|exact I].
  destruct (tick_between _ _ _ Hg E) as [Hg' Hne].
  cbn [deps_change]. split; [apply LogDeps_eqb_seconds; exact Hne|].
  apply IH. exact Hg'.
Qed.

Lemma nth_error_renders_from (n : nat) : forall k g i,
  (i < n)%nat ->
  exists gi,
    ticks random (S i) g = Some gi /\
    nth_error (renders_from random clock k n g) i = Some (clock (k + i)%nat, state gi).
Proof.
  induction n as [|n IH]; intros k g i Hi; [lia|].
  cbn [renders_from ticks]. destruct (tick_total random g) as (g' & ->).
  destruct i as [|i].
  - exists g'. split; [reflexivity|]. rewrite Nat.add_0_r. reflexivity.
  - destruct (IH (S k) g' i ltac:(lia)) as (gi & Hticks & Hnth).
    exists gi. split; [exact Hticks|].
    cbn [nth_error]. rewrite Hnth. do 3 f_equal. lia.
Qed.

Lemma length_renders_from (n : nat) : forall k g,
  List.length (renders_from random clock k n g) = n.
Proof.
  induction n as [|n IH]; intros k g; [reflexivity|].
  cbn [renders_from]. destruct (tick_total random g) as (g' & ->).
  cbn [List.length]. rewrite IH. reflexivity.
Qed.

Lemma nth_error_session_renders (n : nat) (g : Gen) (j : nat) :
  (j <= n)%nat ->
  exists gj,
    ticks random j g = Some gj /\
    nth_error (session_renders random clock n g) j = Some (clock j, state gj).
Proof.
  intro Hj. unfold session_renders. destruct j as [|i].
  - exists g. split; reflexivity.
  - destruct (nth_error_renders_from n 1 g i ltac:(lia)) as (gi & Hticks & Hnth).
    exists gi. split; [exact Hticks|]. exact Hnth.
Qed.

Lemma session_log_newest_first (n : nat) (g : Gen) :
  between_ticks g ->
  session_log random clock n g =
  firstn 40 (rev (records (session_renders random clock n g))).
Proof.
  intro Hg. unfold session_log.
  rewrite (log_run_changing _ None []).
  - rewrite app_nil_r. reflexivity.
  - unfold session_renders. cbn [deps_change]. split; [exact I|].
    apply renders_from_change. exact Hg.
  - cbn; lia.
Qed.

Lemma length_session_renders (n : nat) (g : Gen) :
  List.length (session_renders random clock n g) = S n.
Proof. unfold session_renders. cbn [List.length]. rewrite length_renders_from. reflexivity. Qed.

Lemma nth_error_session_log (n : nat) (g : Gen) (i : nat) :
  between_ticks g ->
  (i < Nat.min (S n) 40)%nat ->
  exists gk,
    ticks random (n - i) g = Some gk /\
    nth_error (session_log random clock n g) i = Some (entry (clock (n - i)%nat) (state gk)).
Proof.
  intros Hg Hi.
  destruct (nth_error_session_renders n g (n - i) ltac:(lia)) as (gk & Hticks & Hnth).
  exists gk. split; [exact Hticks|].
  rewrite (session_log_newest_first n g Hg), nth_error_firstn.
  replace (i <? 40)%nat with true by (symmetry; apply Nat.ltb_lt; lia).
  assert (Hlen : List.length (records (session_renders random clock n g)) = S n).
  { unfold records. rewrite length_map. apply length_session_renders. }
  rewrite nth_error_rev, Hlen.
  replace (i <? S n)%nat with true by (symmetry; apply Nat.ltb_lt; lia).
  replace (S n - S i)%nat with (n - i)%nat by lia.
  unfold records. rewrite nth_error_map, Hnth. reflexivity.
Qed.

End SessionLogFacts.

Section SessionFacts.

Variable random : nat -> Q.
Variable config : Config.
Variable envs : nat -> Ambient.

Lemma step_tick (env : Ambient) (o : Overlay) :
  exists g o' out,
    tick random (stream o) = Some g /\
    step random config TimerTick env o = Some (o', out) /\
    stream o' = g /\
    log o' = log_effect (lastLogDeps o) (timeString env) (state g) (log o) /\
    lastLogDeps o' = Some (logDeps (state g)).
Proof.
  destruct (tick_total random (stream o)) as (g & Hg).
  exists g. unfold step, handle. rewrite Hg. unfold commit.
  destruct (escalation_effect _ _) as [calls last'].
  do 2 eexists. split; [reflexivity|]. split; [reflexivity|].
  cbn. repeat split.
Qed.

Lemma run_ticks_log (n : nat) : forall k o,
  exists o',
    run_ticks random config envs k n o = Some o' /\
    ticks random n (stream o) = Some (stream o') /\
    log o' = log_run (lastLogDeps o)
               (renders_from random (fun j => timeString (envs j)) k n (stream o))
               (log o).
Proof.
  induction n as [|n IH]; intros k o.
  - exists o. repeat split.
  - destruct (step_tick (envs k) o) as (g & o1 & out & Hg & Hstep & Hs & Hl & Hd).
    destruct (IH (S k) o1) as (o' & Hrun & Hticks & Hlog).
    exists o'. cbn [run_ticks ticks renders_from log_run].
    rewrite Hstep, Hg. rewrite Hs in Hticks, Hlog. rewrite Hl, Hd in Hlog.
    split; [exact Hrun|]. split; [exact Hticks|]. exact Hlog.
Qed.

(** The log of the overlay after mount and [n] ticks is [session_log]. *)
Lemma session_log_of_overlay (n : nat) (g0 : Gen) :
  useSimulatedAIStream config = Some g0 ->
  exists o,
    session random config envs n = Some o /\
    ticks random n g0 = Some (stream o) /\
    log o = session_log random (fun j => timeString (envs j)) n g0.
Proof.
  intro Hg0. unfold session, mount, WastemeterOverlay. rewrite Hg0.
  unfold commit. destruct (escalation_effect _ _) as [calls last'].
  cbn [stream log lastLogDeps].
  match goal with
  | |- exists o, run_ticks _ _ _ _ _ ?o0 = _ /\ _ =>
      destruct (run_ticks_log n 1 o0) as (o & Hrun & Hticks & Hlog)
  end.
  exists o. split; [exact Hrun|]. split; [exact Hticks|]. exact Hlog.
Qed.

End SessionFacts.

(** C6: a run of the logging effect puts the new record in front and keeps
    the first forty, so no log is ever longer than forty; over a session
    from mount every tick changes a dependency and adds its record, the log
    after [n] ticks holds the min(n + 1, 40) newest renders, newest first,
    entry [i] being the record of tick [n - i]; after fifty ticks that is
    forty entries, for ticks 50 down to 11. *)
Theorem session_log_bounded_fifo (random : nat -> Q) (clock : nat -> string) :
  (forall e L, push e L = firstn 40 (e :: L) /\ (List.length (push e L) <= 40)%nat) /\
  (forall prev rs L,
     (List.length L <= 40)%nat -> (List.length (log_run prev rs L) <= 40)%nat) /\
  (forall config g0 n,
     useSimulatedAIStream config = Some g0 ->
     deps_change None (session_renders random clock n g0) /\
     session_log random clock n g0 =
       firstn 40 (rev (records (session_renders random clock n g0))) /\
     List.length (session_log random clock n g0) = Nat.min (S n) 40 /\
     (forall i, (i < Nat.min (S n) 40)%nat ->
        exists gk,
          ticks random (n - i) g0 = Some gk /\
          nth_error (session_log random clock n g0) i =
            Some (entry (clock (n - i)%nat) (state gk)))) /\
  (forall config g0,
     useSimulatedAIStream config = Some g0 ->
     List.length (session_log random clock 50 g0) = 40%nat /\
     session_log random clock 50 g0 =
       rev (skipn 11 (records (session_renders random clock 50 g0))) /\
     (forall i, (i < 40)%nat ->
        exists gk,
          ticks random (50 - i) g0 = Some gk /\
          nth_error (session_log random clock 50 g0) i =
            Some (entry (clock (50 - i)%nat) (state gk)))).
Proof.
  assert (Hlen : forall n g, between_ticks g ->
            List.length (session_log random clock n g) = Nat.min (S n) 40).
  { intros n g Hg. rewrite (session_log_newest_first random clock n g Hg).
    rewrite length_firstn, length_rev. unfold records.
    rewrite length_map, length_session_renders. lia. }
  split; [|split; [|split]].
  - intros e L. split; [reflexivity|apply length_push].
  - intros prev rs L. apply length_log_run.
  - intros config g0 n Hmount. pose proof (mount_between _ _ Hmount) as Hg.
    split; [|split; [|split]].
    + unfold session_renders. cbn [deps_change]. split; [exact I|].
      apply renders_from_change. exact Hg.
    + apply session_log_newest_first. exact Hg.
    + apply Hlen. exact Hg.
    + intros i Hi. apply nth_error_session_log; assumption.
  - intros config g0 Hmount. pose proof (mount_between _ _ Hmount) as Hg.
    split; [|split].
    + rewrite (Hlen 50%nat g0 Hg). reflexivity.
    + rewrite (session_log_newest_first random clock 50 g0 Hg), firstn_rev.
      replace (List.length (records (session_renders random clock 50 g0))) with 51%nat
        by (unfold records; rewrite length_map, length_session_renders; reflexivity).
      reflexivity.
    + intros i Hi. apply nth_error_session_log; [exact Hg|].
      change (Nat.min 51 40) with 40%nat. exact Hi.
Qed.

Lemma session_log_bounded_fifo_witness :
  List.length
    (session_log halves noon 50
       {| state := {| pattern := {| key := "FOCUSED"; label := "Focused";
                                    waste := false |};
                      secondsInPattern := 0; sessionSec := 0; wastedSec := 0 |};
          dwellLeft := 0; draws := 0 |}) = 40%nat.
Proof.
  apply (proj2 (proj2 (proj2 (session_log_bounded_fifo halves noon))) DEFAULT_CONFIG).
  reflexivity.
Defined.

(** ** Session start and the missing reset *)

Lemma one_second_in_reached :
  match mount DEFAULT_CONFIG phone with
  | Some (o0, _) => option_map fst (step halves DEFAULT_CONFIG TimerTick phone o0)
  | None => None
  end = Some one_second_in.
Proof. vm_compute. reflexivity. Qed.

Lemma handle_keeps (random : nat -> Q) (ev : Event) (env : Ambient) (o o' : Overlay) :
  handle random ev env o = Some o' ->
  sessionSec (state (stream o)) <= sessionSec (state (stream o')) /\
  wastedSec (state (stream o)) <= wastedSec (state (stream o')) /\
  log o' = log o.
Proof.
  destruct ev; cbn [handle]; intro H;
    try (injection H as <-; cbn; repeat split; lia).
  destruct (tick random (stream o)) as [g|] eqn:E; [|discriminate].
  injection H as <-. cbn. apply tick_counters in E. destruct E as [E1 E2].
  destruct (waste (pattern (state g))); repeat split; lia.
Qed.

(** C9, as the specification states it, fails: no event of the overlay
    resets it.  One second into the default session every event leaves
    [sessionSec] at 1 or above. *)
Lemma no_event_resets : ~ exists random ev, resets random ev.
Proof.
  intros (random & ev & Hreset).
  destruct (Hreset phone one_second_in) as (o' & Hh & Hs & _).
  apply handle_keeps in Hh. destruct Hh as [Hle _].
  cbn in Hle. lia.
Qed.

(** C9, amended: the overlay has no reset.  No event lowers a counter, and
    the render after an event leaves the log as it was or puts one record
    in front of it.  The state asked of a reset is the one the hooks start
    in at mount, before the first effects: both counters at zero, an empty
    log, no dwell left; so the first tick picks a pattern and leaves
    seconds-in-pattern at 1. *)
Theorem session_starts_fresh (random : nat -> Q) (config : Config) :
  (forall o,
     WastemeterOverlay config = Some o ->
     fresh o /\
     secondsInPattern (state (stream o)) = 0 /\
     draws (stream o) = 0%nat /\
     exists p g',
       pickPattern (random 0%nat) = Some p /\
       tick random (stream o) = Some g' /\
       pattern (state g') = p /\
       secondsInPattern (state g') = 1 /\
       sessionSec (state g') = 1) /\
  (forall ev env o o' out,
     step random config ev env o = Some (o', out) ->
     sessionSec (state (stream o)) <= sessionSec (state (stream o')) /\
     wastedSec (state (stream o)) <= wastedSec (state (stream o')) /\
     (log o' = log o \/
      log o' = push (entry (timeString env) (state (stream o'))) (log o))).
Proof.
  split.
  - intros o Ho. unfold WastemeterOverlay in Ho.
    destruct (useSimulatedAIStream config) as [g|] eqn:Hg; [|discriminate].
    injection Ho as <-. cbn [stream log].
    unfold useSimulatedAIStream in Hg.
    destruct (nth_error (patterns config) 0) as [p0|]; [|discriminate].
    injection Hg as <-. unfold fresh. cbn.
    split; [repeat split; lia|]. split; [reflexivity|]. split; [reflexivity|].
    destruct (pickPattern_total (random 0%nat)) as (p & Hp & _).
    exists p. unfold tick. cbn. rewrite Hp. eexists.
    split; [reflexivity|]. split; [reflexivity|]. cbn. repeat split.
  - intros ev env o o' out H. unfold step in H.
    destruct (handle random ev env o) as [o1|] eqn:Hh; [|discriminate].
    apply handle_keeps in Hh. destruct Hh as (H1 & H2 & H3).
    unfold commit in H.
    destruct (escalation_effect (effect_input config env o1) (lastSever o1)) as [calls last'].
    injection H as <- <-.
    cbn [stream log]. split; [exact H1|]. split; [exact H2|].
    rewrite <- H3. unfold log_effect.
    destruct (match lastLogDeps o1 with
              | None => true
              | Some d => negb (LogDeps_eqb d (logDeps (state (stream o1))))
              end); [right|left]; reflexivity.
Qed.

Lemma session_starts_fresh_witness :
  exists o, WastemeterOverlay DEFAULT_CONFIG = Some o /\ fresh o.
Proof.
  eexists. split; [reflexivity|].
  apply (proj1 (proj1 (session_starts_fresh halves DEFAULT_CONFIG) _ eq_refl)).
Defined.

(** * Further properties *)

(** ** Display arithmetic *)

(** Names every minimum and maximum of two numbers, keeps what the library
    says of it, and leaves the rest to linear arithmetic. *)
Ltac name_min a b :=
  let H := fresh "Hmin" in
  let m := fresh "m" in
  let E := fresh "E" in
  pose proof (Q.min_spec a b) as H; remember (Qmin a b) as m eqn:E; clear E.

Ltac name_max a b :=
  let H := fresh "Hmax" in
  let m := fresh "m" in
  let E := fresh "E" in
  pose proof (Q.max_spec a b) as H; remember (Qmax a b) as m eqn:E; clear E.

Ltac minmax_lra :=
  repeat match goal with
         | |- context [Qmin ?a ?b] => name_min a b
         | |- context [Qmax ?a ?b] => name_max a b
         | _ : context [Qmin ?a ?b] |- _ => name_min a b
         | _ : context [Qmax ?a ?b] |- _ => name_max a b
         end;
  lra.

(** X1: between ordered bounds [clamp] returns a value within the bounds:
    the value itself when it is within them, the lower bound below them,
    the upper bound above them. *)
Theorem clamp_within_bounds (v min max : Q) :
  (min <= max)%Q ->
  (min <= clamp v min max)%Q /\
  (clamp v min max <= max)%Q /\
  ((min <= v)%Q -> (v <= max)%Q -> (clamp v min max == v)%Q) /\
  ((v <= min)%Q -> (clamp v min max == min)%Q) /\
  ((max <= v)%Q -> (clamp v min max == max)%Q).
Proof.
  intro Hb. unfold clamp. repeat split; intros; minmax_lra.
Qed.

Lemma clamp_within_bounds_witness : (clamp 120 0 100 == 100)%Q.
Proof.
  apply (clamp_within_bounds 120 0 100); discriminate.
Defined.

(** X2: when the bounds are given the wrong way round, or coincide,
    [clamp] returns the lower bound whatever the value. *)
Theorem clamp_inverted_bounds (v min max : Q) :
  (max <= min)%Q -> (clamp v min max == min)%Q.
Proof.
  intro Hb. unfold clamp. minmax_lra.
Qed.

Lemma clamp_inverted_bounds_witness : (clamp 50 100 0 == 100)%Q.
Proof.
  apply (clamp_inverted_bounds 50 100 0). discriminate.
Defined.

(** X3: for any bounds [clamp] keeps the order of values, and clamping a
    clamped value changes nothing. *)
Theorem clamp_monotone_idempotent (v1 v2 min max : Q) :
  (v1 <= v2)%Q ->
  (clamp v1 min max <= clamp v2 min max)%Q /\
  (clamp (clamp v1 min max) min max == clamp v1 min max)%Q.
Proof.
  intro Hv. unfold clamp. split; minmax_lra.
Qed.

Lemma clamp_monotone_idempotent_witness :
  (clamp (-5) 0 100 <= clamp 120 0 100)%Q.
Proof.
  apply (clamp_monotone_idempotent (-5) 120 0 100). discriminate.
Defined.

Lemma clamp_within_bounds_in (v min max : Q) :
  (min <= v)%Q -> (v <= max)%Q -> (clamp v min max == v)%Q.
Proof. intros. unfold clamp. minmax_lra. Qed.

Lemma rounding_exact : rounding exact.
Proof. split; unfold exact; intros; try assumption; reflexivity. Qed.

Lemma ilog2_unique (x : Q) (k : Z) :
  (0 < x)%Q -> (2 ^ k <= x)%Q -> (x < 2 ^ (k + 1))%Q -> ilog2 x = k.
Proof.
  intros Hx H1 H2. destruct (ilog2_spec x Hx) as [S1 S2].
  assert (A : ilog2 x < k + 1) by (apply (Qpower_lt_compat_l_inv 2); [lra|reflexivity]).
  assert (B : k < ilog2 x + 1) by (apply (Qpower_lt_compat_l_inv 2); [lra|reflexivity]).
  lia.
Qed.

Lemma double_pos_eq (x y : Q) :
  (0 < x)%Q -> (x == y)%Q -> (double_pos x == double_pos y)%Q.
Proof.
  intros Hx H.
  pose proof (double_pos_mono x y Hx ltac:(lra)).
  pose proof (double_pos_mono y x ltac:(lra) ltac:(lra)). lra.
Qed.

(** A number with at most 53 bits before the place 2^e is a double. *)
Lemma double_pos_dyadic (m e : Z) :
  0 < m -> m <= 2 ^ 53 -> -1074 <= e ->
  (double_pos (inject_Z m * 2 ^ e) == inject_Z m * 2 ^ e)%Q.
Proof.
  intros Hm0 Hm1 He.
  pose proof (pow2_pos e) as Pe.
  assert (Hmq : (0 < inject_Z m)%Q) by (change 0%Q with (inject_Z 0); rewrite <- Zlt_Qlt; lia).
  assert (Hx : (0 < inject_Z m * 2 ^ e)%Q) by nra.
  pose proof (Z.log2_spec m Hm0) as [La Lb].
  pose proof (Z.log2_nonneg m) as La0.
  set (a := Z.log2 m) in *.
  assert (Ha53 : a <= 53).
  { destruct (Z_lt_le_dec 53 a) as [Hc|]; [|assumption].
    assert (2 ^ 54 <= 2 ^ a) by (apply Z.pow_le_mono_r; lia). lia. }
  assert (Hk : ilog2 (inject_Z m * 2 ^ e) = a + e).
  { apply ilog2_unique; [exact Hx| |].
    - rewrite pow2_plus. apply Qmult_le_compat_r; [|lra].
      rewrite <- (pow2_Z a La0), <- Zle_Qle. exact La.
    - replace (a + e + 1) with (Z.succ a + e) by lia. rewrite pow2_plus.
      apply Qmult_lt_compat_r; [exact Pe|].
      rewrite <- (pow2_Z (Z.succ a)) by lia. rewrite <- Zlt_Qlt. exact Lb. }
  unfold double_pos, last_place. rewrite Hk.
  destruct (Z_le_gt_dec a 52) as [Hn|Hn].
  - set (e' := Z.max (-1074) (a + e - 52)).
    assert (He' : e' <= e) by (unfold e'; lia).
    assert (Hq : (inject_Z m * 2 ^ e / 2 ^ e' == inject_Z (m * 2 ^ (e - e')))%Q).
    { rewrite inject_Z_mult, (pow2_Z (e - e')) by lia.
      replace e with ((e - e') + e') at 1 by lia. rewrite pow2_plus.
      pose proof (pow2_pos e'). field. lra. }
    assert (Hr : round_half_even (inject_Z m * 2 ^ e / 2 ^ e') = m * 2 ^ (e - e')).
    { rewrite <- (round_half_even_int (m * 2 ^ (e - e'))).
      apply Z.le_antisymm; apply round_half_even_mono; lra. }
    rewrite Hr, inject_Z_mult, (pow2_Z (e - e')) by lia.
    rewrite <- Qmult_assoc, <- pow2_plus.
    replace (e - e' + e') with e by lia. reflexivity.
  - assert (Ha : a = 53) by lia.
    assert (Hm : m = 2 ^ 53) by (rewrite Ha in La; lia).
    replace (Z.max (-1074) (a + e - 52)) with (e + 1) by lia.
    assert (Hq : (inject_Z m * 2 ^ e / 2 ^ (e + 1) == inject_Z (2 ^ 52))%Q).
    { rewrite Hm, pow2_plus. change (2 ^ 1)%Q with 2%Q.
      change (inject_Z (2 ^ 53)) with (inject_Z (2 ^ 52) * 2)%Q. field. lra. }
    assert (Hr : round_half_even (inject_Z m * 2 ^ e / 2 ^ (e + 1)) = 2 ^ 52).
    { rewrite <- (round_half_even_int (2 ^ 52)).
      apply Z.le_antisymm; apply round_half_even_mono; lra. }
    rewrite Hr, Hm, pow2_plus. change (2 ^ 1)%Q with 2%Q.
    change (inject_Z (2 ^ 53)) with (inject_Z (2 ^ 52) * 2)%Q. ring.
Qed.

Lemma double_pos_mantissa (x : Q) :
  (0 < x)%Q ->
  0 <= round_half_even (x / 2 ^ last_place x) <= 2 ^ 53.
Proof.
  intro Hx. destruct (ilog2_spec x Hx) as [_ S2].
  pose proof (pow2_pos (last_place x)) as Pe.
  split.
  - rewrite <- (round_half_even_int 0). apply round_half_even_mono.
    apply Qle_shift_div_l; [exact Pe|]. change (inject_Z 0) with 0%Q. lra.
  - rewrite <- (round_half_even_int (2 ^ 53)). apply round_half_even_mono.
    apply Qle_shift_div_r; [exact Pe|].
    rewrite (pow2_Z 53) by lia. rewrite <- pow2_plus.
    assert (H : (2 ^ (ilog2 x + 1) <= 2 ^ (53 + last_place x))%Q)
      by (apply pow2_le; unfold last_place; lia).
    lra.
Qed.

Lemma double_pos_idem (x : Q) :
  (0 < x)%Q -> (double (double_pos x) == double_pos x)%Q.
Proof.
  intro Hx. destruct (double_pos_mantissa x Hx) as [M0 M1].
  unfold double_pos. set (m := round_half_even (x / 2 ^ last_place x)) in *.
  pose proof (pow2_pos (last_place x)) as Pe.
  destruct (Z.eq_dec m 0) as [E|N].
  - rewrite E. unfold double.
    destruct (Qcompare_spec (inject_Z 0 * 2 ^ last_place x) 0) as [H|H|H];
      change (inject_Z 0) with 0%Q in *; lra.
  - assert (Hmq : (0 < inject_Z m)%Q)
      by (change 0%Q with (inject_Z 0); rewrite <- Zlt_Qlt; lia).
    unfold double.
    destruct (Qcompare_spec (inject_Z m * 2 ^ last_place x) 0) as [H|H|H]; try nra.
    apply double_pos_dyadic; [lia|lia|unfold last_place; lia].
Qed.

(** A double rounds to itself. *)
Lemma double_idem (x : Q) : (double (double x) == double x)%Q.
Proof.
  unfold double at 2 3.
  destruct (Qcompare_spec x 0) as [H|H|H].
  - reflexivity.
  - pose proof (double_pos_nonneg (- x) ltac:(lra)) as Hn.
    pose proof (double_pos_idem (- x) ltac:(lra)) as Hi.
    unfold double in *.
    destruct (Qcompare_spec (- double_pos (- x)) 0) as [G|G|G]; try lra.
    destruct (Qcompare_spec (double_pos (- x)) 0) as [K|K|K]; try lra.
    rewrite (double_pos_eq (- - double_pos (- x)) (double_pos (- x))); lra.
  - apply double_pos_idem. exact H.
Qed.

(** Rounding to the nearest double is a rounding in the sense the display
    arithmetic asks for. *)
Lemma rounding_double : rounding double.
Proof.
  split.
  - apply double_mono.
  - apply double_idem.
  - reflexivity.
  - reflexivity.
  - reflexivity.
Qed.

Lemma fl_between (fl : Q -> Q) (lo hi x : Q) :
  rounding fl ->
  (fl lo == lo)%Q -> (fl hi == hi)%Q ->
  (lo <= x)%Q -> (x <= hi)%Q ->
  (lo <= fl x)%Q /\ (fl x <= hi)%Q.
Proof.
  intros R Hlo Hhi H1 H2.
  pose proof (fl_mono fl R _ _ H1). pose proof (fl_mono fl R _ _ H2).
  split; lra.
Qed.

Lemma Math_round_within (lo hi : Z) (x : Q) :
  (inject_Z lo <= x)%Q -> (x <= inject_Z hi)%Q ->
  lo <= Math_round x <= hi.
Proof.
  intros Hlo Hhi. destruct (Math_round_nearest x) as [H1 H2]. split.
  - destruct (Z_lt_le_dec (Math_round x) lo) as [Hlt|]; [|assumption].
    assert (Hz : Math_round x + 1 <= lo) by lia.
    rewrite Zle_Qle, inject_Z_plus in Hz. change (inject_Z 1) with 1%Q in Hz. lra.
  - destruct (Z_lt_le_dec hi (Math_round x)) as [Hlt|]; [|assumption].
    assert (Hz : hi + 1 <= Math_round x) by lia.
    rewrite Zle_Qle, inject_Z_plus in Hz. change (inject_Z 1) with 1%Q in Hz. lra.
Qed.

(** The share of wasted seconds, before rounding: between 0 and 1, with no
    division by zero at the start of a session. *)
Lemma waste_share (ai : StreamState) :
  counters_ok ai ->
  (0 <= inject_Z (wastedSec ai) / inject_Z (Z.max 1 (sessionSec ai)))%Q /\
  (inject_Z (wastedSec ai) / inject_Z (Z.max 1 (sessionSec ai)) <= 1)%Q.
Proof.
  intros [H0 H1].
  assert (Hm : (0 < inject_Z (Z.max 1 (sessionSec ai)))%Q).
  { change 0%Q with (inject_Z 0). rewrite <- Zlt_Qlt. lia. }
  split.
  - apply Qle_shift_div_l; [exact Hm|]. rewrite Qmult_0_l.
    change 0%Q with (inject_Z 0). rewrite <- Zle_Qle. exact H0.
  - apply Qle_shift_div_r; [exact Hm|]. rewrite Qmult_1_l.
    rewrite <- Zle_Qle. lia.
Qed.

Lemma wastedPct_bounds (fl : Q -> Q) (ai : StreamState) :
  rounding fl -> counters_ok ai -> 0 <= wastedPct fl ai <= 100.
Proof.
  intros R Hc. destruct (waste_share ai Hc) as [H0 H1].
  destruct (fl_between fl 0 1 _ R (fl_0 fl R) (fl_1 fl R) H0 H1) as [Q0 Q1].
  unfold wastedPct. apply Math_round_within; change (inject_Z 0) with 0%Q;
    change (inject_Z 100) with 100%Q;
    apply (fl_between fl 0 100 _ R (fl_0 fl R) (fl_100 fl R)); lra.
Qed.

Lemma fl_at (fl : Q -> Q) (c x : Q) :
  rounding fl -> (fl c == c)%Q -> (x == c)%Q -> (fl x == c)%Q.
Proof.
  intros R Hc Hx.
  destruct (fl_between fl c c x R Hc Hc) as [H1 H2]; lra.
Qed.

Lemma Math_round_at (n : Z) (x : Q) : (x == inject_Z n)%Q -> Math_round x = n.
Proof.
  intro Hx. assert (H : n <= Math_round x <= n); [|lia].
  apply Math_round_within; lra.
Qed.

Lemma wastedPct_none (fl : Q -> Q) (ai : StreamState) :
  rounding fl -> wastedSec ai = 0 -> wastedPct fl ai = 0.
Proof.
  intros R Hw. unfold wastedPct. rewrite Hw. apply Math_round_at.
  change (inject_Z 0) with 0%Q. apply (fl_at fl 0 _ R (fl_0 fl R)).
  assert (H : (fl (0 / inject_Z (Z.max 1 (sessionSec ai))) == 0)%Q).
  { apply (fl_at fl 0 _ R (fl_0 fl R)). unfold Qdiv. apply Qmult_0_l. }
  rewrite H. reflexivity.
Qed.

Lemma wastedPct_all (fl : Q -> Q) (ai : StreamState) :
  rounding fl -> 1 <= sessionSec ai -> wastedSec ai = sessionSec ai ->
  wastedPct fl ai = 100.
Proof.
  intros R Hs Hw. unfold wastedPct. rewrite Hw.
  replace (Z.max 1 (sessionSec ai)) with (sessionSec ai) by lia.
  apply Math_round_at. change (inject_Z 100) with 100%Q.
  apply (fl_at fl 100 _ R (fl_100 fl R)).
  assert (H : (fl (inject_Z (sessionSec ai) / inject_Z (sessionSec ai)) == 1)%Q).
  { apply (fl_at fl 1 _ R (fl_1 fl R)). apply Qmult_inv_r.
    intro E. unfold Qeq in E. cbn in E. lia. }
  rewrite H. reflexivity.
Qed.

(** X4: after any number of ticks from mount the session-waste percentage
    is an integer from 0 to 100, whatever the rounding of the division and
    the product, so the clamp before the ring leaves it as it is; at mount,
    with no second elapsed, it is 0 and nothing is divided by zero. *)
Theorem wastedPct_is_a_percentage (fl : Q -> Q) (random : nat -> Q)
  (config : Config) (g0 : Gen) (n : nat) :
  rounding fl ->
  useSimulatedAIStream config = Some g0 ->
  exists gn,
    ticks random n g0 = Some gn /\
    0 <= wastedPct fl (state gn) <= 100 /\
    (progressForRing fl (state gn) == inject_Z (wastedPct fl (state gn)))%Q /\
    wastedPct fl (state g0) = 0.
Proof.
  intros R Hmount.
  destruct (ticks_total random n g0) as (gn & Hn). exists gn.
  assert (H0 : sessionSec (state g0) = 0 /\ wastedSec (state g0) = 0).
  { unfold useSimulatedAIStream in Hmount.
    destruct (nth_error (patterns config) 0); [|discriminate].
    injection Hmount as <-. split; reflexivity. }
  destruct H0 as [Hs0 Hw0].
  destruct (ticks_counters _ _ _ _ Hn) as (I1 & I2 & I3).
  assert (Hc : counters_ok (state gn)) by (unfold counters_ok; lia).
  pose proof (wastedPct_bounds fl (state gn) R Hc) as Hb.
  split; [exact Hn|]. split; [exact Hb|]. split.
  - unfold progressForRing. apply clamp_within_bounds_in.
    + change 0%Q with (inject_Z 0). rewrite <- Zle_Qle. lia.
    + change 100%Q with (inject_Z 100). rewrite <- Zle_Qle. lia.
  - apply wastedPct_none; assumption.
Qed.

Lemma wastedPct_is_a_percentage_witness :
  exists gn,
    ticks halves 30 default_mount = Some gn /\
    0 <= wastedPct exact (state gn) <= 100 /\
    (progressForRing exact (state gn) == inject_Z (wastedPct exact (state gn)))%Q /\
    wastedPct exact (state default_mount) = 0.
Proof.
  apply (wastedPct_is_a_percentage exact halves DEFAULT_CONFIG default_mount 30%nat).
  - exact rounding_exact.
  - reflexivity.
Defined.

(** X5: the percentage is 0 while no second is wasted and 100 once every
    second of a session of at least one second is wasted, whatever the
    rounding. *)
Theorem wastedPct_extremes (fl : Q -> Q) (ai : StreamState) :
  rounding fl ->
  (wastedSec ai = 0 -> wastedPct fl ai = 0) /\
  (1 <= sessionSec ai -> wastedSec ai = sessionSec ai -> wastedPct fl ai = 100).
Proof.
  intro R. split; intros; [apply wastedPct_none|apply wastedPct_all]; assumption.
Qed.

Lemma wastedPct_extremes_witness :
  wastedPct exact (state (stream one_second_in)) = 100.
Proof.
  apply (proj2 (wastedPct_extremes exact (state (stream one_second_in)) rounding_exact));
    [simpl; lia|reflexivity].
Defined.

Lemma Qdiv_share (x d : Q) :
  (0 < d)%Q -> (0 <= x)%Q -> (x <= d)%Q -> (0 <= x / d)%Q /\ (x / d <= 1)%Q.
Proof.
  intros Hd H0 H1. split.
  - apply Qle_shift_div_l; [exact Hd|]. lra.
  - apply Qle_shift_div_r; [exact Hd|]. lra.
Qed.

Lemma Qdiv_nonneg (x d : Q) : (0 < d)%Q -> (0 <= x)%Q -> (0 <= x / d)%Q.
Proof. intros Hd H0. apply Qle_shift_div_l; [exact Hd|]. lra. Qed.

Lemma ring_c_nonneg (fl : Q -> Q) (size stroke : Q) :
  rounding fl -> (stroke <= size)%Q ->
  (0 <= ring_r fl size stroke)%Q /\ (0 <= ring_c fl size stroke)%Q.
Proof.
  intros R Hs.
  assert (Hd : (0 <= fl (size - stroke))%Q).
  { pose proof (fl_mono fl R 0 (size - stroke)%Q) as H. pose proof (fl_0 fl R). lra. }
  assert (Hr : (0 <= ring_r fl size stroke)%Q).
  { unfold ring_r.
    assert (Hh : (0 <= fl (size - stroke) / 2)%Q)
      by (apply Qdiv_nonneg; [reflexivity|exact Hd]).
    pose proof (fl_mono fl R _ _ Hh). pose proof (fl_0 fl R). lra. }
  split; [exact Hr|].
  assert (Hpi : (0 <= fl (2 * Math_PI))%Q).
  { pose proof (fl_mono fl R 0 (2 * Math_PI)%Q) as H. pose proof (fl_0 fl R).
    unfold Math_PI in *. lra. }
  unfold ring_c.
  pose proof (Qmult_le_0_compat _ _ Hpi Hr) as Hp.
  pose proof (fl_mono fl R _ _ Hp). pose proof (fl_0 fl R). lra.
Qed.

Lemma ring_share (fl : Q -> Q) (progress : Q) :
  rounding fl ->
  (0 <= fl (clamp progress 0 100 / 100))%Q /\ (fl (clamp progress 0 100 / 100) <= 1)%Q.
Proof.
  intro R.
  assert (H : (0 <= clamp progress 0 100)%Q /\ (clamp progress 0 100 <= 100)%Q)
    by (unfold clamp; split; minmax_lra).
  destruct H as [H0 H1].
  apply (fl_between fl 0 1 _ R (fl_0 fl R) (fl_1 fl R));
    apply Qdiv_share; (reflexivity || assumption).
Qed.

(** X6: for a stroke no wider than the ring, whatever the rounding, the arc
    [ProgressRing] draws is between nothing and the whole circumference and
    the gap after it is not negative; a progress of 0 or below draws
    nothing, a progress of 100 or above draws the whole circle. *)
Theorem ring_arc_within_circle (fl : Q -> Q) (size stroke progress : Q) :
  rounding fl ->
  (stroke <= size)%Q ->
  (0 <= ring_dash fl size stroke progress)%Q /\
  (ring_dash fl size stroke progress <= ring_c fl size stroke)%Q /\
  (0 <= ring_gap fl size stroke progress)%Q /\
  ((progress <= 0)%Q ->
   (ring_dash fl size stroke progress == 0)%Q /\
   (ring_gap fl size stroke progress == ring_c fl size stroke)%Q) /\
  ((100 <= progress)%Q ->
   (ring_dash fl size stroke progress == ring_c fl size stroke)%Q /\
   (ring_gap fl size stroke progress == 0)%Q).
Proof.
  intros R Hs.
  destruct (ring_c_nonneg fl size stroke R Hs) as [_ Hc].
  destruct (ring_share fl progress R) as [Hq0 Hq1].
  assert (Hcc : (fl (ring_c fl size stroke) == ring_c fl size stroke)%Q)
    by (unfold ring_c; apply (fl_idem fl R)).
  assert (Hdash : (0 <= ring_dash fl size stroke progress)%Q /\
                  (ring_dash fl size stroke progress <= ring_c fl size stroke)%Q).
  { unfold ring_dash. apply (fl_between fl 0 _ _ R (fl_0 fl R) Hcc).
    - apply Qmult_le_0_compat; assumption.
    - pose proof (Qmult_le_compat_r _ _ (ring_c fl size stroke) Hq1 Hc). lra. }
  destruct Hdash as [Hd0 Hd1].
  split; [exact Hd0|]. split; [exact Hd1|]. split; [|split].
  - unfold ring_gap.
    pose proof (fl_mono fl R 0 (ring_c fl size stroke - ring_dash fl size stroke progress)%Q).
    pose proof (fl_0 fl R). lra.
  - intro Hp.
    assert (Hq : (fl (clamp progress 0 100 / 100) == 0)%Q).
    { apply (fl_at fl 0 _ R (fl_0 fl R)).
      assert (H : (clamp progress 0 100 == 0)%Q) by (unfold clamp; minmax_lra).
      rewrite H. reflexivity. }
    assert (Hd : (ring_dash fl size stroke progress == 0)%Q).
    { unfold ring_dash. apply (fl_at fl 0 _ R (fl_0 fl R)). rewrite Hq. ring. }
    split; [exact Hd|].
    unfold ring_gap. apply (fl_at fl _ _ R Hcc). rewrite Hd. ring.
  - intro Hp.
    assert (Hq : (fl (clamp progress 0 100 / 100) == 1)%Q).
    { apply (fl_at fl 1 _ R (fl_1 fl R)).
      assert (H : (clamp progress 0 100 == 100)%Q) by (unfold clamp; minmax_lra).
      rewrite H. reflexivity. }
    assert (Hd : (ring_dash fl size stroke progress == ring_c fl size stroke)%Q).
    { unfold ring_dash. apply (fl_at fl _ _ R Hcc). rewrite Hq. ring. }
    split; [exact Hd|].
    unfold ring_gap. apply (fl_at fl 0 _ R (fl_0 fl R)). rewrite Hd. ring.
Qed.

Lemma ring_arc_within_circle_witness :
  (ring_dash exact 96 12 130 == ring_c exact 96 12)%Q.
Proof.
  apply (ring_arc_within_circle exact 96 12 130 rounding_exact); discriminate.
Defined.

(** ** Severity and thresholds *)

(** X7: for any thresholds, ordered or not, a longer time in a pattern
    never gives a lower severity. *)
Theorem getSeverity_monotone (s1 s2 : Z) (th : Thresholds.t) (isWaste : bool) :
  s1 <= s2 ->
  ladder_rank (getSeverity s1 th isWaste) <= ladder_rank (getSeverity s2 th isWaste).
Proof.
  intro H. unfold getSeverity. destruct isWaste; cbn [negb]; [|reflexivity].
  repeat match goal with
         | |- context [?a >=? ?b] => destruct (Z.geb_spec a b)
         end; cbn; lia.
Qed.

Lemma getSeverity_monotone_witness :
  ladder_rank (getSeverity 3 (thresholds DEFAULT_CONFIG) true) <=
  ladder_rank (getSeverity 30 (thresholds DEFAULT_CONFIG) true).
Proof.
  apply (getSeverity_monotone 3 30). simpl; lia.
Defined.


(** ** Dwell *)

Lemma tick_continues (random : nat -> Q) (g : Gen) :
  0 < dwellLeft g ->
  exists g',
    tick random g = Some g' /\
    pattern (state g') = pattern (state g) /\
    secondsInPattern (state g') = secondsInPattern (state g) + 1 /\
    dwellLeft g' = dwellLeft g - 1 /\
    draws g' = draws g.
Proof.
  intro Hd. unfold tick.
  replace (dwellLeft g <=? 0) with false by (symmetry; apply Z.leb_gt; exact Hd).
  eexists. split; [reflexivity|]. cbn. repeat split. lia.
Qed.

Lemma ticks_continue (random : nat -> Q) (j : nat) : forall g,
  Z.of_nat j <= dwellLeft g ->
  exists gj,
    ticks random j g = Some gj /\
    pattern (state gj) = pattern (state g) /\
    secondsInPattern (state gj) = secondsInPattern (state g) + Z.of_nat j /\
    dwellLeft gj = dwellLeft g - Z.of_nat j /\
    draws gj = draws g.
Proof.
  induction j as [|j IH]; intros g Hj.
  - exists g. cbn. repeat split; lia.
  - destruct (tick_continues random g ltac:(lia)) as (g1 & Ht & Hp & Hs & Hd & Hn).
    destruct (IH g1 ltac:(lia)) as (gj & Hts & Hpj & Hsj & Hdj & Hnj).
    exists gj. cbn [ticks]. rewrite Ht. split; [exact Hts|].
    repeat split; try congruence; lia.
Qed.

(** X9: a pattern picked with dwell [d] is shown for exactly [d] ticks: on
    the [j]-th of them, 1 <= j <= d, it is still the pattern, it has been
    running for [j] seconds, [d - j] ticks are left, and no further random
    value has been drawn; the tick after the [d]-th draws again. *)
Theorem pattern_lasts_its_dwell (random : nat -> Q) (g : Gen) :
  dwellLeft g <= 0 ->
  exists p d,
    pickPattern (random (draws g)) = Some p /\
    d = newDwell p (random (S (draws g))) /\
    (forall j, (1 <= j)%nat -> Z.of_nat j <= d ->
       exists gj,
         ticks random j g = Some gj /\
         pattern (state gj) = p /\
         secondsInPattern (state gj) = Z.of_nat j /\
         dwellLeft gj = d - Z.of_nat j /\
         draws gj = S (S (draws g))) /\
    (exists gd gnext,
       ticks random (Z.to_nat d) g = Some gd /\
       tick random gd = Some gnext /\
       secondsInPattern (state gnext) = 1 /\
       draws gnext = S (S (S (S (draws g))))).
Proof.
  intro Hd.
  destruct (tick_reselects random g Hd) as (p & g1 & Hp & Ht & Hpat & Hs & Hdw & Hn).
  pose proof (newDwell_min p (random (S (draws g)))) as Hmin.
  exists p, (newDwell p (random (S (draws g)))).
  split; [exact Hp|]. split; [reflexivity|].
  assert (Hrun : forall j, (1 <= j)%nat ->
            Z.of_nat j <= newDwell p (random (S (draws g))) ->
            exists gj,
              ticks random j g = Some gj /\
              pattern (state gj) = p /\
              secondsInPattern (state gj) = Z.of_nat j /\
              dwellLeft gj = newDwell p (random (S (draws g))) - Z.of_nat j /\
              draws gj = S (S (draws g))).
  { intros [|j] Hj1 Hj2; [lia|].
    destruct (ticks_continue random j g1 ltac:(lia)) as (gj & Hts & Hpj & Hsj & Hdj & Hnj).
    exists gj. cbn [ticks]. rewrite Ht. split; [exact Hts|].
    repeat split; try congruence; lia. }
  split; [exact Hrun|].
  destruct (Hrun (Z.to_nat (newDwell p (random (S (draws g))))) ltac:(lia) ltac:(lia))
    as (gd & Hgd & _ & _ & Hdd & Hnd).
  destruct (tick_reselects random gd ltac:(lia)) as (p' & gn & _ & Htn & _ & Hsn & _ & Hnn).
  exists gd, gn. split; [exact Hgd|]. split; [exact Htn|]. split; [exact Hsn|].
  rewrite Hnn, Hnd. reflexivity.
Qed.

Lemma pattern_lasts_its_dwell_witness :
  exists p d,
    pickPattern (halves 0%nat) = Some p /\
    d = newDwell p (halves 1%nat) /\
    (forall j, (1 <= j)%nat -> Z.of_nat j <= d ->
       exists gj,
         ticks halves j default_mount = Some gj /\
         pattern (state gj) = p /\
         secondsInPattern (state gj) = Z.of_nat j /\
         dwellLeft gj = d - Z.of_nat j /\
         draws gj = 2%nat) /\
    (exists gd gnext,
       ticks halves (Z.to_nat d) default_mount = Some gd /\
       tick halves gd = Some gnext /\
       secondsInPattern (state gnext) = 1 /\
       draws gnext = 4%nat).
Proof.
  apply (pattern_lasts_its_dwell halves default_mount). simpl; lia.
Defined.

Lemma newDwell_at_most_twenty (p : BehaviorPattern) (u : Q) :
  (0 <= u)%Q -> (u < 1)%Q -> 6 <= newDwell p u <= 20.
Proof.
  intros Hu0 Hu1. destruct (newDwell_range p u Hu0 Hu1) as [Hf Ho].
  destruct (String.string_dec (key p) "FOCUSED") as [E|N].
  - specialize (Hf E). lia.
  - specialize (Ho N). lia.
Qed.

Lemma tick_within_dwell (random : nat -> Q) (g g' : Gen) :
  unit_draws random ->
  within_dwell g ->
  tick random g = Some g' ->
  within_dwell g'.
Proof.
  unfold within_dwell, tick. intros Hu (H0 & H1 & H2) H.
  destruct (Z.leb_spec (dwellLeft g) 0) as [Hd|Hd].
  - destruct (pickPattern (random (draws g))) as [p|]; [|discriminate].
    injection H as <-. cbn [state dwellLeft secondsInPattern].
    destruct (Hu (S (draws g))) as [Hu0 Hu1].
    pose proof (newDwell_at_most_twenty p _ Hu0 Hu1). lia.
  - injection H as <-. cbn [state dwellLeft secondsInPattern]. lia.
Qed.

Lemma ticks_within_dwell (random : nat -> Q) (n : nat) : forall g gn,
  unit_draws random ->
  within_dwell g ->
  ticks random n g = Some gn ->
  within_dwell gn.
Proof.
  induction n as [|n IH]; intros g gn Hu Hg H.
  - injection H as <-. exact Hg.
  - cbn [ticks] in H. destruct (tick random g) as [g1|] eqn:E; [|discriminate].
    apply (IH g1 gn Hu); [|exact H].
    apply (tick_within_dwell random g g1 Hu Hg E).
Qed.

(** X10: with [Math.random()] in [0, 1) no pattern is ever shown for more
    than twenty seconds in a row: after any number of ticks from mount
    seconds-in-pattern is at most 20.  So with thresholds above 20 for
    high and critical, as the defaults 25 and 45 are, no render of the
    session is classified high or critical. *)
Theorem seconds_in_pattern_at_most_twenty (random : nat -> Q) (config : Config)
  (g0 : Gen) (n : nat) :
  unit_draws random ->
  useSimulatedAIStream config = Some g0 ->
  exists gn,
    ticks random n g0 = Some gn /\
    0 <= secondsInPattern (state gn) <= 20 /\
    (20 < Thresholds.high (thresholds config) ->
     20 < Thresholds.critical (thresholds config) ->
     forall isWaste,
       ladder_rank (getSeverity (secondsInPattern (state gn)) (thresholds config) isWaste)
       <= 1).
Proof.
  intros Hu Hmount.
  destruct (ticks_total random n g0) as (gn & Hn). exists gn.
  assert (Hg0 : within_dwell g0).
  { unfold useSimulatedAIStream in Hmount.
    destruct (nth_error (patterns config) 0); [|discriminate].
    injection Hmount as <-. unfold within_dwell; cbn. lia. }
  destruct (ticks_within_dwell random n g0 gn Hu Hg0 Hn) as (H0 & H1 & H2).
  split; [exact Hn|]. split; [lia|].
  intros Hh Hc isWaste. unfold getSeverity.
  destruct isWaste; cbn [negb]; [|cbn; lia].
  repeat match goal with
         | |- context [?a >=? ?b] => destruct (Z.geb_spec a b)
         end; cbn; lia.
Qed.

Lemma unit_draws_halves : unit_draws halves.
Proof. intro k. unfold halves. split; [discriminate|reflexivity]. Qed.

Lemma seconds_in_pattern_at_most_twenty_witness :
  exists gn,
    ticks halves 40 default_mount = Some gn /\
    0 <= secondsInPattern (state gn) <= 20 /\
    (20 < Thresholds.high (thresholds DEFAULT_CONFIG) ->
     20 < Thresholds.critical (thresholds DEFAULT_CONFIG) ->
     forall isWaste,
       ladder_rank (getSeverity (secondsInPattern (state gn))
                                (thresholds DEFAULT_CONFIG) isWaste) <= 1).
Proof.
  apply (seconds_in_pattern_at_most_twenty halves DEFAULT_CONFIG default_mount 40%nat).
  - exact unit_draws_halves.
  - reflexivity.
Defined.

(** ** Feedback of the overlay *)

Lemma commit_parts (config : Config) (env : Ambient) (o : Overlay) :
  stream (fst (commit config env o)) = stream o /\
  dragEnabled (fst (commit config env o)) = dragEnabled o /\
  snoozedUntil (fst (commit config env o)) = snoozedUntil o /\
  muted (fst (commit config env o)) = muted o /\
  running (fst (commit config env o)) = running o /\
  log (fst (commit config env o)) =
    log_effect (lastLogDeps o) (timeString env) (state (stream o)) (log o) /\
  lastSever (fst (commit config env o)) =
    snd (escalation_effect (effect_input config env o) (lastSever o)) /\
  lastLogDeps (fst (commit config env o)) = Some (logDeps (state (stream o))) /\
  snd (commit config env o) =
    perform_all (muted o) (reducedMotion env) (device env)
      (fst (escalation_effect (effect_input config env o) (lastSever o))).
Proof.
  unfold commit.
  destruct (escalation_effect (effect_input config env o) (lastSever o)).
  cbn. repeat split.
Qed.

Lemma sever_rank_waste (config : Config) (o : Overlay) :
  waste (pattern (state (stream o))) = true ->
  0 <= ladder_rank (sever config o) <= 3.
Proof.
  intro Hw. unfold sever, getSeverity. rewrite Hw. cbn [negb].
  repeat match goal with
         | |- context [?a >=? ?b] => destruct (a >=? b)
         end; cbn; lia.
Qed.

Lemma sever_rank_not_waste (config : Config) (o : Overlay) :
  waste (pattern (state (stream o))) = false -> sever config o = ok.
Proof. intro Hw. unfold sever, getSeverity. rewrite Hw. reflexivity. Qed.

(** The calls of a render: none, or the pair for the rank of the current
    severity of a waste pattern. *)
Lemma escalation_calls (config : Config) (env : Ambient) (o : Overlay) :
  fst (escalation_effect (effect_input config env o) (lastSever o)) = [] \/
  (waste (pattern (state (stream o))) = true /\
   (now env <? snoozedUntil o) = false /\
   running o = true /\
   ladder_rank (lastSever o) < ladder_rank (sever config o) /\
   fst (escalation_effect (effect_input config env o) (lastSever o)) =
     [CallPing (700 + ladder_rank (sever config o) * 100) 100;
      CallVibrate (25 + ladder_rank (sever config o) * 10)]).
Proof.
  unfold escalation_effect, effect_input; cbn [in_snoozed in_running in_waste in_sever].
  destruct (now env <? snoozedUntil o); [left; reflexivity|].
  destruct (running o); [|left; reflexivity]. cbn [orb negb].
  destruct (waste (pattern (state (stream o)))); [|left; reflexivity].
  rewrite !indexOf_order.
  destruct (Z.gtb_spec (ladder_rank (sever config o)) (ladder_rank (lastSever o)));
    [right|left; reflexivity].
  repeat split. exact H.
Qed.

(** X11: a render makes at most one tone and one pulse, the tone first:
    its outputs are nothing, or what [ping] and then [vibrate] produce for
    the rank of the current severity of a waste pattern; every tone lasts
    100 ms at 700, 800, 900 or 1000 Hz and every pulse lasts 25, 35, 45 or
    55 ms. *)
Theorem render_feedback_shape (config : Config) (env : Ambient) (o : Overlay) :
  (snd (commit config env o) = [] \/
   (waste (pattern (state (stream o))) = true /\
    snd (commit config env o) =
      ping (muted o) (device env) (700 + ladder_rank (sever config o) * 100) 100 ++
      vibrate (reducedMotion env) (device env) (25 + ladder_rank (sever config o) * 10))) /\
  Forall feedback_output (snd (commit config env o)) /\
  (List.length (snd (commit config env o)) <= 2)%nat.
Proof.
  destruct (commit_parts config env o) as (_ & _ & _ & _ & _ & _ & _ & _ & Hout).
  rewrite Hout.
  destruct (escalation_calls config env o) as [Hc|(Hw & _ & _ & _ & Hc)]; rewrite Hc.
  - split; [left; reflexivity|]. split; [constructor|cbn; lia].
  - pose proof (sever_rank_waste config o Hw) as Hr.
    cbn [perform_all flat_map perform]. rewrite app_nil_r.
    split; [right; split; [exact Hw|reflexivity]|].
    unfold ping, vibrate.
    destruct (muted o), (hasAudioContext (device env)), (reducedMotion env),
      (hasVibrate (device env)); cbn [negb app List.length];
      (split; [|lia]);
      repeat (apply Forall_cons || apply Forall_nil); cbn [feedback_output]; lia.
Qed.

(** ** Events of the overlay *)

Lemma handle_total (random : nat -> Q) (ev : Event) (env : Ambient) (o : Overlay) :
  exists o1, handle random ev env o = Some o1.
Proof.
  destruct ev; cbn [handle]; try (eexists; reflexivity).
  destruct (tick_total random (stream o)) as (g & ->). eexists; reflexivity.
Qed.

Lemma handle_fields (random : nat -> Q) (ev : Event) (env : Ambient) (o o1 : Overlay) :
  handle random ev env o = Some o1 ->
  lastSever o1 = lastSever o /\
  log o1 = log o /\
  lastLogDeps o1 = lastLogDeps o /\
  (ev <> ClickSnooze -> snoozedUntil o1 = snoozedUntil o) /\
  (ev <> ClickPause -> running o1 = running o) /\
  (ev <> ClickMute -> muted o1 = muted o) /\
  (ev <> TimerTick -> stream o1 = stream o).
Proof.
  destruct ev; cbn [handle]; intro H;
    try (injection H as <-; cbn; repeat split; intros; congruence).
  destruct (tick random (stream o)); [|discriminate].
  injection H as <-. cbn. repeat split; intros; congruence.
Qed.

Lemma commit_suppressed (config : Config) (env : Ambient) (o : Overlay) :
  (now env <? snoozedUntil o) = true \/ running o = false ->
  snd (commit config env o) = [] /\
  lastSever (fst (commit config env o)) = lastSever o.
Proof.
  intro Hs.
  destruct (commit_parts config env o) as (_ & _ & _ & _ & _ & _ & Hl & _ & Hout).
  rewrite Hout, Hl.
  rewrite (escalation_effect_suppressed (effect_input config env o) (lastSever o)).
  - split; reflexivity.
  - unfold suppressed, effect_input; cbn. exact Hs.
Qed.

Lemma step_parts (random : nat -> Q) (config : Config) (ev : Event) (env : Ambient)
  (o : Overlay) :
  exists o1,
    handle random ev env o = Some o1 /\
    step random config ev env o = Some (commit config env o1).
Proof.
  destruct (handle_total random ev env o) as (o1 & H1).
  exists o1. split; [exact H1|]. unfold step. rewrite H1. reflexivity.
Qed.

(** X12: pausing stops the feedback, not the simulation: a timer tick of a
    paused overlay makes no output and leaves the recorded severity, yet
    the session second is counted and, once the overlay has rendered, the
    tick's record is put in front of the log. *)
Theorem paused_tick_still_counts (random : nat -> Q) (config : Config)
  (env : Ambient) (o : Overlay) :
  running o = false ->
  exists o',
    step random config TimerTick env o = Some (o', []) /\
    sessionSec (state (stream o')) = sessionSec (state (stream o)) + 1 /\
    lastSever o' = lastSever o /\
    running o' = false /\
    (rendered o -> between_ticks (stream o) ->
     log o' = push (entry (timeString env) (state (stream o'))) (log o)).
Proof.
  intro Hrun.
  destruct (step_parts random config TimerTick env o) as (o1 & Hh & Hstep).
  destruct (handle_fields _ _ _ _ _ Hh) as (F1 & F2 & F3 & _ & F5 & _ & _).
  specialize (F5 ltac:(discriminate)).
  destruct (commit_parts config env o1) as (P1 & _ & _ & _ & P5 & P6 & _ & _ & _).
  destruct (commit_suppressed config env o1) as [Hout Hlast];
    [right; congruence|].
  exists (fst (commit config env o1)).
  split; [rewrite Hstep; rewrite <- Hout; destruct (commit config env o1); reflexivity|].
  cbn [handle] in Hh. destruct (tick random (stream o)) as [g|] eqn:Ht; [|discriminate].
  injection Hh as <-. cbn [stream with_stream] in *.
  rewrite P1. destruct (tick_counters _ _ _ Ht) as [Hs _].
  split; [exact Hs|]. split; [congruence|]. split; [congruence|].
  intros Hr Hb. rewrite P6. cbn [lastLogDeps log with_stream].
  unfold rendered in Hr. rewrite Hr. unfold log_effect.
  destruct (tick_between _ _ _ Hb Ht) as [_ Hne].
  rewrite (LogDeps_eqb_seconds _ _ Hne). reflexivity.
Qed.

Lemma paused_tick_still_counts_witness :
  exists o',
    step halves DEFAULT_CONFIG TimerTick phone paused_one_second_in = Some (o', []) /\
    sessionSec (state (stream o')) = 2 /\
    lastSever o' = mild /\
    running o' = false /\
    (rendered paused_one_second_in -> between_ticks (stream paused_one_second_in) ->
     log o' = push (entry (timeString phone) (state (stream o')))
                   (log paused_one_second_in)).
Proof.
  apply (paused_tick_still_counts halves DEFAULT_CONFIG phone paused_one_second_in).
  reflexivity.
Defined.

(** X13: the snooze button silences the overlay for one minute of clock
    time: its own render makes no output, and so does every render of any
    other event while the clock is below the snooze time, each leaving the
    recorded severity and the snooze time as they were; at the snooze time
    the escalation effect is no longer snoozed. *)
Theorem snooze_lasts_a_minute (random : nat -> Q) (config : Config) :
  (forall env o,
     exists o1,
       step random config ClickSnooze env o = Some (o1, []) /\
       snoozedUntil o1 = now env + 60000 /\
       lastSever o1 = lastSever o) /\
  (forall ev env o o2 out,
     ev <> ClickSnooze ->
     now env < snoozedUntil o ->
     step random config ev env o = Some (o2, out) ->
     out = [] /\ lastSever o2 = lastSever o /\ snoozedUntil o2 = snoozedUntil o) /\
  (forall env o,
     snoozedUntil o <= now env ->
     in_snoozed (effect_input config env o) = false).
Proof.
  split; [|split].
  - intros env o.
    destruct (step_parts random config ClickSnooze env o) as (o1 & Hh & Hstep).
    destruct (handle_fields _ _ _ _ _ Hh) as (F1 & _).
    assert (Hu : snoozedUntil o1 = now env + 60000)
      by (cbn [handle] in Hh; injection Hh as <-; reflexivity).
    destruct (commit_parts config env o1) as (_ & _ & P3 & _).
    destruct (commit_suppressed config env o1) as [Hout Hlast];
      [left; apply Z.ltb_lt; lia|].
    exists (fst (commit config env o1)).
    split; [rewrite Hstep; rewrite <- Hout; destruct (commit config env o1); reflexivity|].
    split; congruence.
  - intros ev env o o2 out Hev Hnow Hstep.
    destruct (step_parts random config ev env o) as (o1 & Hh & Hstep').
    rewrite Hstep in Hstep'. injection Hstep' as Hc.
    destruct (handle_fields _ _ _ _ _ Hh) as (F1 & _ & _ & F4 & _).
    specialize (F4 Hev).
    destruct (commit_parts config env o1) as (_ & _ & P3 & _).
    destruct (commit_suppressed config env o1) as [Hout Hlast];
      [left; apply Z.ltb_lt; lia|].
    rewrite <- Hc in *. cbn [fst snd] in *.
    split; [exact Hout|]. split; congruence.
  - intros env o H. cbn. apply Z.ltb_ge. exact H.
Qed.

Lemma snooze_lasts_a_minute_witness :
  (exists o1,
     step halves DEFAULT_CONFIG ClickSnooze phone one_second_in = Some (o1, []) /\
     snoozedUntil o1 = now phone + 60000 /\
     lastSever o1 = lastSever one_second_in) /\
  (@nil Output = [] /\
   lastSever snoozed_idling_next = lastSever snoozed_idling /\
   snoozedUntil snoozed_idling_next = snoozedUntil snoozed_idling) /\
  in_snoozed (effect_input DEFAULT_CONFIG a_minute_on snoozed_idling) = false.
Proof.
  split; [|split].
  - apply (proj1 (snooze_lasts_a_minute halves DEFAULT_CONFIG) phone one_second_in).
  - apply (proj1 (proj2 (snooze_lasts_a_minute halves DEFAULT_CONFIG))
             TimerTick half_a_minute_on snoozed_idling snoozed_idling_next []).
    + discriminate.
    + simpl; lia.
    + vm_compute. reflexivity.
  - apply (proj2 (proj2 (snooze_lasts_a_minute halves DEFAULT_CONFIG))).
    simpl; lia.
Defined.

(** Without the snooze the same tick, ten seconds into idling with mild
    recorded, sounds the warn tone and pulse. *)
Lemma unsnoozed_tick_fires :
  option_map snd
    (step halves DEFAULT_CONFIG TimerTick half_a_minute_on
       {| stream := stream snoozed_idling; dragEnabled := true; snoozedUntil := 0;
          muted := false; running := true; log := []; lastSever := mild;
          lastLogDeps := None |}) = Some [Tone 800 100; Vibration 35].
Proof. vm_compute. reflexivity. Qed.

(** X14: only the timer writes the log.  Once the overlay has rendered, a
    click on any of the four buttons leaves the stream and the log as they
    were; and after every event the overlay has rendered again. *)
Theorem clicks_leave_the_log (random : nat -> Q) (config : Config) :
  (forall ev env o,
     ev <> TimerTick ->
     rendered o ->
     exists o' out,
       step random config ev env o = Some (o', out) /\
       stream o' = stream o /\
       log o' = log o) /\
  (forall ev env o o' out,
     step random config ev env o = Some (o', out) -> rendered o') /\
  (forall env o out, mount config env = Some (o, out) -> rendered o).
Proof.
  split; [|split].
  - intros ev env o Hev Hr.
    destruct (step_parts random config ev env o) as (o1 & Hh & Hstep).
    destruct (handle_fields _ _ _ _ _ Hh) as (_ & F2 & F3 & _ & _ & _ & F7).
    specialize (F7 Hev).
    destruct (commit_parts config env o1) as (P1 & _ & _ & _ & _ & P6 & _).
    exists (fst (commit config env o1)), (snd (commit config env o1)).
    split; [rewrite Hstep; destruct (commit config env o1); reflexivity|].
    split; [congruence|].
    rewrite P6, F3, F2, F7. unfold rendered in Hr. rewrite Hr.
    apply log_effect_same_deps.
  - intros ev env o o' out Hstep.
    destruct (step_parts random config ev env o) as (o1 & Hh & Hstep').
    rewrite Hstep in Hstep'. injection Hstep' as Hc.
    destruct (commit_parts config env o1) as (P1 & _ & _ & _ & _ & _ & _ & P8 & _).
    rewrite <- Hc in *. cbn [fst] in *. unfold rendered. congruence.
  - intros env o out Hm. unfold mount in Hm.
    destruct (WastemeterOverlay config) as [o0|]; [|discriminate].
    injection Hm as Hc.
    destruct (commit_parts config env o0) as (P1 & _ & _ & _ & _ & _ & _ & P8 & _).
    rewrite Hc in *. cbn [fst] in *. unfold rendered. congruence.
Qed.

Lemma clicks_leave_the_log_witness :
  exists o' out,
    step halves DEFAULT_CONFIG ClickPause phone one_second_in = Some (o', out) /\
    stream o' = stream one_second_in /\
    log o' = log one_second_in.
Proof.
  apply (proj1 (clicks_leave_the_log halves DEFAULT_CONFIG) ClickPause phone one_second_in).
  - discriminate.
  - reflexivity.
Defined.

Lemma muted_makes_no_tone (rm : bool) (dev : Device) (calls : list FeedbackCall)
  (f d : Z) :
  ~ In (Tone f d) (perform_all true rm dev calls).
Proof.
  unfold perform_all. rewrite in_flat_map. intros (c & _ & Hin).
  destruct c as [f' d'|ms]; cbn [perform ping] in Hin; [destruct Hin|].
  exact (vibrate_outputs rm dev ms f d Hin).
Qed.

(** X15: an escalation that happens while muted is spent: the render makes
    no tone and records the severity all the same, so the unmute click
    that follows makes no output at all; the missed tone is not played
    later. *)
Theorem muted_escalation_is_not_replayed (random : nat -> Q) (config : Config)
  (env env' : Ambient) (o : Overlay) :
  muted o = true ->
  (now env <? snoozedUntil o) = false ->
  running o = true ->
  exists o',
    (forall f d, ~ In (Tone f d) (snd (commit config env o))) /\
    lastSever (fst (commit config env o)) = sever config o /\
    step random config ClickMute env' (fst (commit config env o)) = Some (o', []) /\
    muted o' = false.
Proof.
  intros Hm Hsn Hrun.
  destruct (commit_parts config env o) as (P1 & _ & P3 & P4 & P5 & _ & P7 & _ & Pout).
  set (o1 := fst (commit config env o)) in *.
  assert (Hlast : lastSever o1 = sever config o).
  { rewrite P7. unfold escalation_effect, effect_input;
      cbn [in_snoozed in_running in_waste in_sever].
    rewrite Hsn, Hrun. reflexivity. }
  destruct (step_parts random config ClickMute env' o1) as (o2 & Hh & Hstep).
  destruct (handle_fields _ _ _ _ _ Hh) as (F1 & _ & _ & _ & _ & _ & F7).
  specialize (F7 ltac:(discriminate)).
  assert (Hmut : muted o2 = false).
  { cbn [handle] in Hh. injection Hh as <-. cbn. rewrite P4, Hm. reflexivity. }
  assert (Hsev : sever config o2 = sever config o)
    by (unfold sever; rewrite F7, P1; reflexivity).
  destruct (commit_parts config env' o2) as (_ & _ & _ & Q4 & _ & _ & _ & _ & Qout).
  assert (Hnone : snd (commit config env' o2) = []).
  { rewrite Qout.
    destruct (escalation_calls config env' o2) as [Hc|(_ & _ & _ & Hlt & _)];
      [rewrite Hc; reflexivity|].
    rewrite F1, Hlast, Hsev in Hlt. lia. }
  exists (fst (commit config env' o2)).
  split; [intros f d; rewrite Pout, Hm; apply muted_makes_no_tone|].
  split; [exact Hlast|].
  split; [rewrite Hstep; rewrite <- Hnone; destruct (commit config env' o2); reflexivity|].
  congruence.
Qed.

Lemma muted_escalation_is_not_replayed_witness :
  exists o',
    (forall f d, ~ In (Tone f d) (snd (commit DEFAULT_CONFIG phone muted_idling))) /\
    lastSever (fst (commit DEFAULT_CONFIG phone muted_idling)) =
      sever DEFAULT_CONFIG muted_idling /\
    step halves DEFAULT_CONFIG ClickMute phone
         (fst (commit DEFAULT_CONFIG phone muted_idling)) = Some (o', []) /\
    muted o' = false.
Proof.
  apply (muted_escalation_is_not_replayed halves DEFAULT_CONFIG phone phone muted_idling);
    reflexivity.
Defined.

(** X16: a render of a pattern that is not waste, neither snoozed nor
    paused, makes no output and records [ok]; and from a recorded [ok] a
    render of a waste pattern, neither snoozed nor paused, always calls the
    ping and the vibration, for the rank of its severity, mild included. *)
Theorem waste_after_focus_always_fires (config : Config) (env : Ambient) (o : Overlay) :
  (now env <? snoozedUntil o) = false ->
  running o = true ->
  (waste (pattern (state (stream o))) = false ->
   snd (commit config env o) = [] /\ lastSever (fst (commit config env o)) = ok) /\
  (waste (pattern (state (stream o))) = true ->
   lastSever o = ok ->
   fst (escalation_effect (effect_input config env o) (lastSever o)) =
     [CallPing (700 + ladder_rank (sever config o) * 100) 100;
      CallVibrate (25 + ladder_rank (sever config o) * 10)] /\
   lastSever (fst (commit config env o)) = sever config o).
Proof.
  intros Hsn Hrun.
  destruct (commit_parts config env o) as (_ & _ & _ & _ & _ & _ & P7 & _ & Pout).
  split.
  - intro Hw. rewrite Pout, P7.
    unfold escalation_effect, effect_input; cbn [in_snoozed in_running in_waste in_sever].
    rewrite Hsn, Hrun, Hw. cbn. split; [reflexivity|].
    apply sever_rank_not_waste. exact Hw.
  - intros Hw Hok. rewrite P7.
    pose proof (sever_rank_waste config o Hw) as Hr.
    unfold escalation_effect, effect_input; cbn [in_snoozed in_running in_waste in_sever].
    rewrite Hsn, Hrun, Hw, Hok, !indexOf_order. cbn [orb negb fst snd ladder_rank].
    replace (ladder_rank (sever config o) >? -1) with true
      by (symmetry; apply Z.gtb_lt; lia).
    split; reflexivity.
Qed.

Lemma waste_after_focus_always_fires_witness :
  snd (commit DEFAULT_CONFIG phone
         {| stream := default_mount; dragEnabled := true; snoozedUntil := 0;
            muted := false; running := true; log := []; lastSever := mild;
            lastLogDeps := None |}) = [] /\
  lastSever (fst (commit DEFAULT_CONFIG phone
         {| stream := default_mount; dragEnabled := true; snoozedUntil := 0;
            muted := false; running := true; log := []; lastSever := mild;
            lastLogDeps := None |})) = ok.
Proof.
  apply (proj1 (waste_after_focus_always_fires DEFAULT_CONFIG phone
         {| stream := default_mount; dragEnabled := true; snoozedUntil := 0;
            muted := false; running := true; log := []; lastSever := mild;
            lastLogDeps := None |} eq_refl eq_refl)).
  reflexivity.
Defined.

(** ** Shake *)

Lemma Severity_eqb_eq (a b : Severity) : Severity_eqb a b = true <-> a = b.
Proof. destruct a, b; cbn; split; intro H; try reflexivity; discriminate. Qed.

(** X17: the overlay shakes exactly when reduced motion is off and the
    pattern is waste and has lasted for the high or the critical threshold;
    under reduced motion it never shakes. *)
Theorem shake_needs_motion_and_high (config : Config) (env : Ambient) (o : Overlay) :
  (shake config env o = true <->
   reducedMotion env = false /\
   waste (pattern (state (stream o))) = true /\
   (Thresholds.high (thresholds config) <= secondsInPattern (state (stream o)) \/
    Thresholds.critical (thresholds config) <= secondsInPattern (state (stream o)))) /\
  (reducedMotion env = true -> shake config env o = false).
Proof.
  unfold shake, sever, getSeverity. split.
  - destruct (reducedMotion env), (waste (pattern (state (stream o)))); cbn [negb andb];
      try (split; [discriminate|intros (H1 & H2 & _); discriminate]).
    repeat match goal with
           | |- context [?a >=? ?b] => destruct (Z.geb_spec a b)
           end; cbn; split; intro Hx; try reflexivity; try discriminate;
      try (repeat split; lia); destruct Hx as (_ & _ & [Hx|Hx]); lia.
  - intros ->. reflexivity.
Qed.

Lemma shake_needs_motion_and_high_witness :
  shake DEFAULT_CONFIG
        {| now := 0; timeString := "12:00:00"; reducedMotion := true;
           device := device phone |} muted_idling = false.
Proof.
  apply (proj2 (shake_needs_motion_and_high DEFAULT_CONFIG
        {| now := 0; timeString := "12:00:00"; reducedMotion := true;
           device := device phone |} muted_idling)).
  reflexivity.
Defined.

(** X18: in a session whose thresholds for high and critical are above 20,
    as the defaults are, and with [Math.random()] in [0, 1), the overlay
    after mount and any number of ticks shows ok, mild or warn and does
    not shake, whatever the motion setting. *)
Theorem session_never_shakes (random : nat -> Q) (config : Config)
  (envs : nat -> Ambient) (g0 : Gen) (n : nat) :
  unit_draws random ->
  20 < Thresholds.high (thresholds config) ->
  20 < Thresholds.critical (thresholds config) ->
  useSimulatedAIStream config = Some g0 ->
  exists o,
    session random config envs n = Some o /\
    ladder_rank (sever config o) <= 1 /\
    (forall env, shake config env o = false).
Proof.
  intros Hu Hh Hc Hmount.
  destruct (session_log_of_overlay random config envs n g0 Hmount) as (o & Hs & Ht & _).
  assert (Hg0 : within_dwell g0).
  { unfold useSimulatedAIStream in Hmount.
    destruct (nth_error (patterns config) 0); [|discriminate].
    injection Hmount as <-. unfold within_dwell; cbn. lia. }
  destruct (ticks_within_dwell random n g0 (stream o) Hu Hg0 Ht) as (H0 & H1 & H2).
  exists o. split; [exact Hs|].
  assert (Hrank : ladder_rank (sever config o) <= 1).
  { unfold sever, getSeverity.
    destruct (waste (pattern (state (stream o)))); cbn [negb]; [|cbn; lia].
    repeat match goal with
           | |- context [?a >=? ?b] => destruct (Z.geb_spec a b)
           end; cbn; lia. }
  split; [exact Hrank|].
  intro env. unfold shake.
  destruct (sever config o); cbn in Hrank; cbn [Severity_eqb orb];
    rewrite ?andb_false_r; try reflexivity; lia.
Qed.

Lemma session_never_shakes_witness :
  exists o,
    session halves DEFAULT_CONFIG (fun _ => phone) 25 = Some o /\
    ladder_rank (sever DEFAULT_CONFIG o) <= 1 /\
    (forall env, shake DEFAULT_CONFIG env o = false).
Proof.
  apply (session_never_shakes halves DEFAULT_CONFIG (fun _ => phone) default_mount 25%nat).
  - exact unit_draws_halves.
  - simpl; lia.
  - simpl; lia.
  - reflexivity.
Defined.

(** ** Self-tests and tables *)

(** X19: the self-tests of the module pass: none of the seven assertions
    on [clamp] and [getSeverity] prints its message. *)
Theorem runSelfTests_pass : runSelfTests = [].
Proof. vm_compute. reflexivity. Qed.

Lemma is_double_dyadic (m e : Z) :
  Z.abs m < 2 ^ 53 -> -1074 <= e -> is_double (inject_Z m * 2 ^ e).
Proof. intros Hm He. exists m, e. split; [exact Hm|]. split; [exact He|reflexivity]. Qed.

(** X20: the weight table and the catalogue agree: every pattern of the
    catalogue is picked for some double in [0, 1) that [Math.random()] may
    return, and what is picked for such a value is always a pattern of the
    catalogue whose key is in the weight table. *)
Theorem every_pattern_can_be_picked :
  (forall p, In p (patterns DEFAULT_CONFIG) ->
     exists u, is_double u /\ (0 <= u)%Q /\ (u < 1)%Q /\ pickPattern u = Some p) /\
  (forall u, is_double u -> (0 <= u)%Q -> (u < 1)%Q ->
     exists p e, pickPattern u = Some p /\ In p (patterns DEFAULT_CONFIG) /\
                 In e weightedPool /\ Weighted.key e = key p).
Proof.
  split.
  - intros p Hin. cbn in Hin.
    destruct Hin as [<-|[<-|[<-|[<-|[<-|[<-|[<-|[<-|[<-|[]]]]]]]]]].
    + exists (inject_Z 0 * 2 ^ 0)%Q.
      split; [apply is_double_dyadic; lia|]. repeat split; vm_compute; congruence.
    + exists (inject_Z 1 * 2 ^ (-1))%Q.
      split; [apply is_double_dyadic; lia|]. repeat split; vm_compute; congruence.
    + exists (inject_Z 5 * 2 ^ (-3))%Q.
      split; [apply is_double_dyadic; lia|]. repeat split; vm_compute; congruence.
    + exists (inject_Z 3 * 2 ^ (-2))%Q.
      split; [apply is_double_dyadic; lia|]. repeat split; vm_compute; congruence.
    + exists (inject_Z 25 * 2 ^ (-5))%Q.
      split; [apply is_double_dyadic; lia|]. repeat split; vm_compute; congruence.
    + exists (inject_Z 13 * 2 ^ (-4))%Q.
      split; [apply is_double_dyadic; lia|]. repeat split; vm_compute; congruence.
    + exists (inject_Z 7 * 2 ^ (-3))%Q.
      split; [apply is_double_dyadic; lia|]. repeat split; vm_compute; congruence.
    + exists (inject_Z 15 * 2 ^ (-4))%Q.
      split; [apply is_double_dyadic; lia|]. repeat split; vm_compute; congruence.
    + exists (inject_Z 63 * 2 ^ (-6))%Q.
      split; [apply is_double_dyadic; lia|]. repeat split; vm_compute; congruence.
  - intros u Hd Hu0 Hu1.
    destruct (find_draw_weightedPool u Hd Hu0 Hu1) as (e & Hfind).
    pose proof (find_draw_In _ _ _ Hfind) as Hin.
    assert (Hkey : chosenKey weightedPool u = Weighted.key e).
    { unfold chosenKey. rewrite Hfind.
      pose proof weightedPool_keys_nonempty as Hkeys.
      rewrite Forall_forall in Hkeys. rewrite (Hkeys e Hin). reflexivity. }
    pose proof weightedPool_keys_catalogued as Hcat.
    rewrite Forall_forall in Hcat. destruct (Hcat e Hin) as (q & Hq & Hqk).
    exists q, e. unfold pickPattern. rewrite Hkey.
    split; [exact Hq|]. split; [|split; [exact Hin|congruence]].
    unfold lookup in Hq.
    destruct (find (fun p => String.eqb (key p) (Weighted.key e)) (patterns DEFAULT_CONFIG))
      as [p'|] eqn:Ef.
    + injection Hq as <-. apply find_some in Ef. tauto.
    + cbn in Hq. injection Hq as <-. left; reflexivity.
Qed.

Lemma every_pattern_can_be_picked_witness :
  (exists u, is_double u /\ (0 <= u)%Q /\ (u < 1)%Q /\
             pickPattern u = Some {| key := "CHEATING"; label := "Cheating";
                                     waste := true |}) /\
  (exists p e, pickPattern (1 # 2) = Some p /\ In p (patterns DEFAULT_CONFIG) /\
               In e weightedPool /\ Weighted.key e = key p).
Proof.
  split.
  - apply (proj1 every_pattern_can_be_picked).
    cbn. do 8 right. left. reflexivity.
  - apply (proj2 every_pattern_can_be_picked (1 # 2) is_double_half);
      [discriminate|reflexivity].
Defined.

(** ** Alerts while the severity rises *)

Lemma events_cons (calls : list FeedbackCall) (trace : list (list FeedbackCall)) :
  events (calls :: trace) = ((if fired calls then 1 else 0) + events trace)%nat.
Proof. unfold events. cbn [filter]. destruct (fired calls); reflexivity. Qed.

Lemma rising_events (sevs : list Severity) : forall last,
  rising last sevs ->
  Z.of_nat (events (fst (escalation_run last (map active_waste sevs)))) <=
  ladder_rank (List.last sevs last) - ladder_rank last.
Proof.
  induction sevs as [|s rest IH]; intros last Hr.
  - cbn. lia.
  - cbn [rising] in Hr. destruct Hr as [Hle Hrest].
    specialize (IH s Hrest).
    cbn [map escalation_run]. rewrite escalation_effect_active.
    destruct (escalation_run s (map active_waste rest)) as [more final] eqn:E.
    cbn [fst] in *. rewrite events_cons, (last_cons s rest last).
    destruct (Z.ltb_spec (ladder_rank last) (ladder_rank s)); cbn [fired]; lia.
Qed.

(** X21: while the severity of a waste pattern only rises, on renders
    neither snoozed nor paused, the effect fires at most once per level
    climbed: the number of events is at most the rank reached minus the
    rank recorded at the start, so never more than four. *)
Theorem one_alert_per_level (last : Severity) (sevs : list Severity) :
  rising last sevs ->
  Z.of_nat (events (fst (escalation_run last (map active_waste sevs)))) <=
    ladder_rank (List.last sevs last) - ladder_rank last /\
  (events (fst (escalation_run last (map active_waste sevs))) <= 4)%nat.
Proof.
  intro Hr. pose proof (rising_events sevs last Hr) as H.
  split; [exact H|].
  assert (H1 : ladder_rank (List.last sevs last) <= 3)
    by (destruct (List.last sevs last); cbn; lia).
  assert (H2 : -1 <= ladder_rank last) by (destruct last; cbn; lia).
  lia.
Qed.

Lemma one_alert_per_level_witness :
  (events (fst (escalation_run ok
      (map active_waste [mild; mild; mild; warn; warn; high; critical; critical])))
   <= 4)%nat.
Proof.
  apply (one_alert_per_level ok [mild; mild; mild; warn; warn; high; critical; critical]).
  cbn. lia.
Defined.
